(** * Hymn scrapers: lyrics extraction, normalisation, fallback and upsert

    A shallow embedding of the shared pipeline of [src/kidung/get_nkb_24.py]
    and [src/kidung/kjpkjnkb.py]: the text normaliser, the title parser, the
    alkitab.app page parser, the two-stage lyrics resolver, the row builder
    and the SQLite upsert.

    Python [str] values are sequences of Unicode code points and are modelled
    as [list N]. *)

From Stdlib Require Import List NArith ZArith Bool Arith Lia String Ascii.
From Stdlib Require Import DecimalString.
Import ListNotations.

Set Warnings "-register-all".
Local Open Scope N_scope.

(* ===================================================================== *)
(** ** Python strings *)
(* ===================================================================== *)

Module Py.

Definition char := N.
Definition str := list char.

(** A Python string literal made of ASCII characters only. *)
Definition lit (s : string) : str := map N_of_ascii (list_ascii_of_string s).

Definition NL : char := 10.
Definition CR : char := 13.

Definition in_range (lo hi c : char) : bool := (lo <=? c) && (c <=? hi).

(** [str.isspace] on one code point; the same set is removed by
    [str.strip()] and matched by [\s] in a [str] pattern. *)
Definition is_space (c : char) : bool :=
  in_range 9 13 c || in_range 28 32 c || (c =? 133) || (c =? 160)
  || (c =? 5760) || in_range 8192 8202 c || (c =? 8232) || (c =? 8233)
  || (c =? 8239) || (c =? 8287) || (c =? 12288).

Fixpoint eqb (a b : str) : bool :=
  match a, b with
  | [], [] => true
  | x :: a', y :: b' => (x =? y) && eqb a' b'
  | _, _ => false
  end.

Fixpoint starts_with (p s : str) : bool :=
  match p, s with
  | [], _ => true
  | a :: p', b :: s' => (a =? b) && starts_with p' s'
  | _ :: _, [] => false
  end.

(** [needle in s]. *)
Fixpoint contains (needle s : str) : bool :=
  starts_with needle s ||
  match s with
  | [] => false
  | _ :: s' => contains needle s'
  end.

(** [s.replace(old, new)] for a non-empty [old] (every call site passes
    one): occurrences are replaced from left to right without overlap.
    [skip] counts the characters of an occurrence still to be passed over. *)
Fixpoint replace_from (old new : str) (skip : nat) (s : str) : str :=
  match s with
  | [] => []
  | c :: s' =>
      match skip with
      | S k => replace_from old new k s'
      | O =>
          if starts_with old s
          then new ++ replace_from old new (pred (List.length old)) s'
          else c :: replace_from old new 0 s'
      end
  end.

Definition replace (old new s : str) : str := replace_from old new 0 s.

(** [s.lstrip()], [s.rstrip()], [s.strip()]. *)
Fixpoint lstrip (s : str) : str :=
  match s with
  | [] => []
  | c :: s' => if is_space c then lstrip s' else s
  end.

Definition rstrip (s : str) : str := rev (lstrip (rev s)).

Definition strip (s : str) : str := rstrip (lstrip s).

(** [s.split(sep)] for a one-character separator: never the empty list. *)
Fixpoint split (sep : char) (s : str) : list str :=
  match s with
  | [] => [[]]
  | c :: s' =>
      if c =? sep then [] :: split sep s'
      else match split sep s' with
           | l :: ls => (c :: l) :: ls
           | [] => [[c]]
           end
  end.

(** [sep.join(ls)]. *)
Fixpoint join (sep : str) (ls : list str) : str :=
  match ls with
  | [] => []
  | l :: ls' =>
      match ls' with
      | [] => l
      | _ :: _ => l ++ sep ++ join sep ls'
      end
  end.

(** Truthiness of an optional string: [None] and [""] are falsy. *)
Definition truthy (s : option str) : bool :=
  match s with
  | Some (_ :: _) => true
  | _ => false
  end.

(** [x or None] on a string. *)
Definition or_none (s : str) : option str :=
  match s with
  | [] => None
  | _ :: _ => Some s
  end.

End Py.

Import Py.

(* ===================================================================== *)
(** ** Regular expressions: the fragment of [re] the scrapers use *)
(* ===================================================================== *)

Module Re.

(** Patterns.  Matching is Python's backtracking search: alternatives are
    tried in order, repetition is greedy, and the first success wins. *)
Inductive re : Type :=
| Eps
| Chr (p : char -> bool)      (* one character of a class *)
| Seq (a b : re)
| Alt (a b : re)              (* a|b *)
| Star (a : re)               (* a*  *)
| Group (n : nat) (a : re)    (* capturing group number n *)
| Bol                         (* ^   *)
| Eol                         (* $   *)
| WordB.                      (* \b  *)

Definition Plus (a : re) : re := Seq a (Star a).

(** A group is recorded as the positions where it starts and ends. *)
Definition groups := list (nat * (nat * nat)).

Record rmatch := { m_start : nat; m_end : nat; m_groups : groups }.

(** The characters [re.IGNORECASE] takes for an ASCII letter, folded to
    that letter in lower case. *)
Definition fold_case (c : char) : char :=
  if in_range 65 90 c then c + 32
  else if c =? 8490 then 107                   (* KELVIN SIGN, for k *)
  else if c =? 383 then 115                    (* LONG S, for s *)
  else if (c =? 304) || (c =? 305) then 105    (* dotted I, dotless i *)
  else c.

(** Character classes.  [\d] and [\w] are given on the ASCII range, which is
    where the patterns below are evaluated; [\s] is [is_space]. *)
Definition is_digit (c : char) : bool := in_range 48 57 c.
Definition is_word (c : char) : bool :=
  is_digit c || in_range 65 90 c || in_range 97 122 c || (c =? 95).
Definition is_dot (c : char) : bool := negb (c =? NL).
Definition one_of (cs : str) (c : char) : bool := existsb (N.eqb c) cs.

(** A literal character under [re.IGNORECASE]. *)
Definition lit_ci (c : char) : re :=
  Chr (fun x => fold_case x =? fold_case c).

(** A literal word under [re.IGNORECASE]. *)
Fixpoint word_ci (w : str) : re :=
  match w with
  | [] => Eps
  | [c] => lit_ci c
  | c :: w' => Seq (lit_ci c) (word_ci w')
  end.

Definition word_before (pre : str) : bool :=
  match pre with c :: _ => is_word c | [] => false end.

Definition word_after (rest : str) : bool :=
  match rest with c :: _ => is_word c | [] => false end.

Section Run.
Context {A : Type}.

(** A continuation receives the consumed prefix (reversed), the remaining
    input and the groups closed so far. *)
Definition cont := str -> str -> groups -> option A.

(** Greedy repetition of [step]; every round must consume input, so
    [S (length rest)] rounds are always enough. *)
Fixpoint star_loop (step : str -> str -> groups -> cont -> option A)
         (n : nat) (pre rest : str) (g : groups) (k : cont) : option A :=
  match n with
  | O => k pre rest g
  | S n' =>
      match step pre rest g
              (fun pre' rest' g' =>
                 if (List.length rest' <? List.length rest)%nat
                 then star_loop step n' pre' rest' g' k
                 else None)
      with
      | Some x => Some x
      | None => k pre rest g
      end
  end.

Fixpoint run (r : re) (pre rest : str) (g : groups) (k : cont) : option A :=
  match r with
  | Eps => k pre rest g
  | Chr p =>
      match rest with
      | c :: rest' => if p c then k (c :: pre) rest' g else None
      | [] => None
      end
  | Seq a b => run a pre rest g (fun pre' rest' g' => run b pre' rest' g' k)
  | Alt a b =>
      match run a pre rest g k with
      | Some x => Some x
      | None => run b pre rest g k
      end
  | Star a => star_loop (run a) (S (List.length rest)) pre rest g k
  | Group n a =>
      run a pre rest g
          (fun pre' rest' g' =>
             k pre' rest' ((n, (List.length pre, List.length pre')) :: g'))
  | Bol => match pre with [] => k pre rest g | _ :: _ => None end
  | Eol =>
      match rest with
      | [] => k pre rest g
      | [c] => if c =? NL then k pre rest g else None
      | _ :: _ :: _ => None
      end
  | WordB =>
      if xorb (word_before pre) (word_after rest) then k pre rest g else None
  end.
End Run.

(** The match of [r] that starts where [pre] ends. *)
Definition match_at (r : re) (pre rest : str) : option rmatch :=
  run r pre rest []
      (fun pre' _ g =>
         Some {| m_start := List.length pre; m_end := List.length pre';
                 m_groups := g |}).

(** [r.match(s)]. *)
Definition match_ (r : re) (s : str) : option rmatch := match_at r [] s.

(** [r.search(s)]: the first position from which [r] matches. *)
Fixpoint search_from (r : re) (pre rest : str) : option rmatch :=
  match match_at r pre rest with
  | Some m => Some m
  | None =>
      match rest with
      | [] => None
      | c :: rest' => search_from r (c :: pre) rest'
      end
  end.

Definition search (r : re) (s : str) : option rmatch := search_from r [] s.

Definition slice (s : str) (i j : nat) : str := firstn (j - i) (skipn i s).

(** [m.group(n)] for a match [m] in [s]; a group that took no part gives
    [None]. *)
Definition group (s : str) (m : rmatch) (n : nat) : option str :=
  match n with
  | O => Some (slice s (m_start m) (m_end m))
  | S _ =>
      match find (fun e => Nat.eqb (fst e) n) (m_groups m) with
      | Some (_, (i, j)) => Some (slice s i j)
      | None => None
      end
  end.

(** [re.sub(r, repl, s)] for a pattern that never matches the empty string
    and a replacement without group references. *)
Fixpoint sub_from (r : re) (repl : str) (skip : nat) (pre rest : str) : str :=
  match rest with
  | [] => []
  | c :: rest' =>
      match skip with
      | S k => sub_from r repl k (c :: pre) rest'
      | O =>
          match match_at r pre rest with
          | Some m => repl ++ sub_from r repl (pred (m_end m - m_start m))
                                       (c :: pre) rest'
          | None => c :: sub_from r repl 0 (c :: pre) rest'
          end
      end
  end.

Definition sub (r : re) (repl s : str) : str := sub_from r repl 0 [] s.

End Re.

(* ===================================================================== *)
(** ** Text normaliser *)
(* ===================================================================== *)

(** [PUNCT_MAP], in insertion order (the order [dict.items()] yields). *)
Definition PUNCT_MAP : list (char * char) :=
  [ (8216, 39); (8217, 39); (8220, 34); (8221, 34);
    (8211, 45); (8212, 45); (160, 32) ].

(** The [PUNCT_MAP] loop. *)
Definition replace_punct (s : str) : str :=
  fold_left (fun acc kv => replace [fst kv] [snd kv] acc) PUNCT_MAP s.

(** Line endings: CR LF, then a lone CR, become LF. *)
Definition unify_newlines (s : str) : str :=
  replace [CR] [NL] (replace [CR; NL] [NL] s).

(** "\n{3,}". *)
Definition NEWLINE : Re.re := Re.Chr (fun c => c =? NL).
Definition NEWLINES3 : Re.re :=
  Re.Seq NEWLINE (Re.Seq NEWLINE (Re.Seq NEWLINE (Re.Star NEWLINE))).

(** Every line stripped on its own. *)
Definition strip_lines (s : str) : str :=
  join [NL] (map strip (split NL s)).

(** [get_nkb_24.normalize]. *)
Definition normalize (s : option str) : option str :=
  match s with
  | None => None
  | Some s =>
      let s := replace_punct s in
      let s := unify_newlines s in
      let s := strip_lines s in
      let s := Re.sub NEWLINES3 [NL; NL] s in
      Some (strip s)
  end.

(** [kjpkjnkb.normalize_preserve_newlines]: line for line the body of
    [get_nkb_24.normalize]. *)
Definition normalize_preserve_newlines (s : option str) : option str :=
  match s with
  | None => None
  | Some s =>
      let s := replace_punct s in
      let s := unify_newlines s in
      let s := strip_lines s in
      let s := Re.sub NEWLINES3 [NL; NL] s in
      Some (strip s)
  end.

(* ===================================================================== *)
(** ** Title parser *)
(* ===================================================================== *)

(** [str.upper] on the ASCII range; exact on everything group 1 of the title
    patterns can capture (ASCII letters and the Kelvin sign, which is its own
    upper case). *)
Definition upper (s : str) : str :=
  map (fun c => if in_range 97 122 c then c - 32 else c) s.

(** [int(s)] for a non-empty run of ASCII digits. *)
Definition int_of_digits (s : str) : Z :=
  fold_left (fun acc c => (10 * acc + Z.of_N (c - 48))%Z) s 0%Z.

(** [x or ""] on an optional string. *)
Definition or_empty (o : option str) : str :=
  match o with
  | Some s => s
  | None => []
  end.

Definition ws : Re.re := Re.Chr is_space.
Definition digit : Re.re := Re.Chr Re.is_digit.
Definition codes : Re.re :=
  Re.Alt (Re.word_ci (lit "KJ"))
         (Re.Alt (Re.word_ci (lit "PKJ")) (Re.word_ci (lit "NKB"))).

(** The characters [-], em dash and en dash. *)
Definition HYPHEN : char := 45.
Definition EM_DASH : char := 8212.
Definition EN_DASH : char := 8211.
Definition COMMA : char := 44.

(* ===================================================================== *)
(** ** Parsed pages *)
(* ===================================================================== *)

Module Html.

(** The tree BeautifulSoup builds: elements with a tag name, the value of
    their [class] attribute and their children, and text leaves. *)
Inductive node : Type :=
| Elem (tag : str) (classes : list str) (children : list node)
| Text (s : str).

(** The selectors the scrapers use: an optional tag name and one class,
    as in "div.lagu" or ".baris". *)
Record selector := { sel_tag : option str; sel_class : str }.

Definition matches (sel : selector) (n : node) : bool :=
  match n with
  | Text _ => false
  | Elem tag classes _ =>
      match sel_tag sel with
      | None => true
      | Some t => Py.eqb t tag
      end
      && existsb (Py.eqb (sel_class sel)) classes
  end.

(** The nodes below [n], in document order. *)
Fixpoint descendants (n : node) : list node :=
  match n with
  | Text _ => []
  | Elem _ _ children => flat_map (fun c => c :: descendants c) children
  end.

(** [n.select(sel)]. *)
Definition select (sel : selector) (n : node) : list node :=
  filter (matches sel) (descendants n).

(** [n.select_one(sel)]. *)
Definition select_one (sel : selector) (n : node) : option node :=
  hd_error (select sel n).

(** [n.get("class", [])]. *)
Definition get_class (n : node) : list str :=
  match n with
  | Elem _ classes _ => classes
  | Text _ => []
  end.

(** The strings below [n], in document order. *)
Fixpoint strings (n : node) : list str :=
  match n with
  | Text s => [s]
  | Elem _ _ children => flat_map strings children
  end.

(** [n.get_text(separator=sep, strip=True)]: every string stripped, the
    empty ones dropped, the rest joined by [sep]. *)
Definition get_text (sep : str) (n : node) : str :=
  join sep (filter (fun s => negb (Py.eqb s [])) (map strip (strings n))).

End Html.

(* ===================================================================== *)
(** ** Lyrics page parser (alkitab.app), the same in both scripts *)
(* ===================================================================== *)

Inductive part_type : Type := reff | bait.

(** One entry of [parts]: the dict with keys "type", "no" and "text". *)
Record part := { p_type : part_type; p_no : option str; p_text : option str }.

(** One lyric block: the dict with keys "lirik_no" and "parts". *)
Record block := { lirik_no : option str; parts : list part }.

(** The selector "tag.cls". *)
Definition tag_class (tag cls : string) : Html.selector :=
  {| Html.sel_tag := Some (lit tag); Html.sel_class := lit cls |}.

(** The selector ".cls". *)
Definition any_class (cls : string) : Html.selector :=
  {| Html.sel_tag := None; Html.sel_class := lit cls |}.

(** "(\d+)\s*$". *)
Definition TRAILING_DIGITS : Re.re :=
  Re.Seq (Re.Group 1 (Re.Plus digit)) (Re.Seq (Re.Star ws) Re.Eol).

(** "\d+". *)
Definition DIGITS : Re.re := Re.Plus digit.

(** [_text_or_none]. *)
Definition _text_or_none (parent : Html.node) (selector : Html.selector)
  : option str :=
  match Html.select_one selector parent with
  | Some el => normalize (Some (Html.get_text (lit " ") el))
  | None => None
  end.

(** The loop body of [parse_alkitab_lirik_blocks] for one "div.bait". *)
Definition parse_bait (b : Html.node) : part :=
  let classes := Html.get_class b in
  let is_reff := existsb (Py.eqb (lit "reff")) classes in
  let lines := map (fun x => normalize (Some (Html.get_text (lit " ") x)))
                   (Html.select (any_class "baris") b) in
  let lines := filter truthy lines in
  let text := match lines with
              | [] => None
              | _ :: _ => Some (join [NL] (map or_empty lines))
              end in
  if is_reff then {| p_type := reff; p_no := None; p_text := text |}
  else
    let no_raw := _text_or_none b (any_class "bait-no") in
    let no :=
      if truthy no_raw then
        match Re.search DIGITS (or_empty no_raw) with
        | Some m2 => Re.group (or_empty no_raw) m2 0
        | None => no_raw
        end
      else None in
    {| p_type := bait; p_no := no; p_text := text |}.

(** [parse_alkitab_lirik_blocks]. *)
Definition parse_alkitab_lirik_blocks (lirik_div : Html.node) : block :=
  let lirik_no_raw := _text_or_none lirik_div (tag_class "div" "lirik_no") in
  let lirik_no :=
    if truthy lirik_no_raw then
      match Re.search TRAILING_DIGITS (or_empty lirik_no_raw) with
      | Some m => Re.group (or_empty lirik_no_raw) m 1
      | None => lirik_no_raw
      end
    else None in
  {| lirik_no := lirik_no;
     parts := map parse_bait (Html.select (tag_class "div" "bait") lirik_div) |}.

Section Pages.
(** [BeautifulSoup(html, "html.parser")]: the document as a tree, its root
    standing for the soup object itself. *)
Variable BeautifulSoup : str -> Html.node.

(** [parse_alkitab_page].  A tag is truthy whatever it contains, so
    [not lagu] holds only for [None]. *)
Definition parse_alkitab_page (html : str) : option (list block) :=
  let soup := BeautifulSoup html in
  match Html.select_one (tag_class "div" "lagu") soup with
  | None => None
  | Some lagu =>
      Some (map parse_alkitab_lirik_blocks
                (Html.select (tag_class "div" "lirik") lagu))
  end.
End Pages.

(** [str.lower] on the code points whose lower case contains an ASCII
    letter; the marker searched for below is ASCII, and no other code point
    lowers to one of its letters. *)
Definition lower (s : str) : str :=
  flat_map (fun c => if in_range 65 90 c then [c + 32]
                     else if c =? 8490 then [107]
                     else if c =? 304 then [105; 775]
                     else [c]) s.

(** [page_says_no_such_song]. *)
Definition page_says_no_such_song (html : str) : bool :=
  contains (lit "no such song") (lower html).

(* ===================================================================== *)
(** ** Effects: requests, exceptions and the warning list *)
(* ===================================================================== *)

(** What the resolver can see of an exception. *)
Inductive exn : Type :=
| HTTPError (status : option Z) (msg : str)
    (* requests.HTTPError: the status code of [e.response], or no response
       at all, and [str(e)] *)
| Exception (msg : str).
    (* any other exception, with [str(e)] *)

(** What a request to a URL gives: [fetch_html] returns the page text or
    raises. *)
Definition session := str -> exn + str.

(** The requests made so far, oldest first, and the resolver's local list
    [warns], which keeps what was appended before an exception. *)
Record state := { log : list str; warns : list str }.

Definition M (A : Type) : Type := state -> (exn + A) * state.

Definition ret {A} (x : A) : M A := fun st => (inr x, st).

Definition bind {A B} (m : M A) (f : A -> M B) : M B :=
  fun st =>
    match m st with
    | (inl e, st') => (inl e, st')
    | (inr x, st') => f x st'
    end.

Definition raise {A} (e : exn) : M A := fun st => (inl e, st).

(** [try: m  except ... as e: h e]. *)
Definition try_except {A} (m : M A) (h : exn -> M A) : M A :=
  fun st =>
    match m st with
    | (inl e, st') => h e st'
    | (inr x, st') => (inr x, st')
    end.

Notation "x <- m ;; k" := (bind m (fun x => k))
  (at level 61, m at next level, right associativity).
Notation "m ;; k" := (bind m (fun _ => k))
  (at level 61, right associativity).

(** [fetch_html(session, url)]: the request is made, then its outcome is
    returned or raised. *)
Definition fetch_html (s : session) (url : str) : M str :=
  fun st => (s url, {| log := log st ++ [url]; warns := warns st |}).

(** [warns = []]. *)
Definition new_warns : M unit :=
  fun st => (inr tt, {| log := log st; warns := [] |}).

(** [warns.append(w)]. *)
Definition warns_append (w : str) : M unit :=
  fun st => (inr tt, {| log := log st; warns := warns st ++ [w] |}).

(** The current content of [warns]. *)
Definition get_warns : M (list str) := fun st => (inr (warns st), st).

Definition when (b : bool) (m : M unit) : M unit := if b then m else ret tt.

(** [str(n)] for an [int]. *)
Definition str_of_int (n : Z) : str := lit (NilEmpty.string_of_int (Z.to_int n)).

(** [bool(response)], which is [response.ok]: false for the statuses
    [raise_for_status] raises on. *)
Definition response_ok (status : Z) : bool :=
  negb ((400 <=? status)%Z && (status <? 600)%Z).

(** [build_alkitab_url]. *)
Definition build_alkitab_url (buku : str) (no_lagu : Z) : str :=
  lit "https://alkitab.app/" ++ upper buku ++ lit "/" ++ str_of_int no_lagu.

(** [not lirik_list]: [None] and the empty list are falsy. *)
Definition no_blocks (l : option (list block)) : bool :=
  match l with
  | Some (_ :: _) => false
  | _ => true
  end.

(** [all(not blk.get("parts") for blk in lirik_list)]. *)
Definition all_parts_empty (l : list block) : bool :=
  forallb (fun blk => match parts blk with [] => true | _ :: _ => false end) l.

(** What the resolver returns: [(lirik_list or None, url, warns)]. *)
Definition resolved : Type := (option (list block) * str * list str)%type.

(* ===================================================================== *)
(** ** [json.dumps(..., ensure_ascii=False)] *)
(* ===================================================================== *)

Module Json.

Inductive value : Type :=
| Null
| String (s : str)
| Array (items : list value)
| Object (members : list (str * value)).

Definition QUOTE : char := 34.
Definition BACKSLASH : char := 92.

Definition hex_digit (n : N) : char := if n <? 10 then 48 + n else 87 + n.

(** The escape of one character: the short forms, [\u00xx] for the other
    control characters, and the character itself otherwise. *)
Definition escape_char (c : char) : str :=
  if c =? QUOTE then [BACKSLASH; QUOTE]
  else if c =? BACKSLASH then [BACKSLASH; BACKSLASH]
  else if c =? 8 then BACKSLASH :: lit "b"
  else if c =? 12 then BACKSLASH :: lit "f"
  else if c =? 10 then BACKSLASH :: lit "n"
  else if c =? 13 then BACKSLASH :: lit "r"
  else if c =? 9 then BACKSLASH :: lit "t"
  else if c <? 32 then BACKSLASH :: lit "u00" ++ [hex_digit (c / 16); hex_digit (c mod 16)]
  else [c].

Definition quote (s : str) : str := QUOTE :: flat_map escape_char s ++ [QUOTE].

(** With the default separators ", " and ": ". *)
Fixpoint dumps (v : value) : str :=
  match v with
  | Null => lit "null"
  | String s => quote s
  | Array items => lit "[" ++ join (lit ", ") (map dumps items) ++ lit "]"
  | Object members =>
      lit "{"
      ++ join (lit ", ")
              (map (fun kv => quote (fst kv) ++ lit ": " ++ dumps (snd kv))
                   members)
      ++ lit "}"
  end.

Definition of_option (o : option str) : value :=
  match o with
  | Some s => String s
  | None => Null
  end.

End Json.

(** A part and a block as the dicts they are, keys in insertion order. *)
Definition part_json (p : part) : Json.value :=
  Json.Object
    [ (lit "type", Json.String (match p_type p with
                                | reff => lit "reff"
                                | bait => lit "bait"
                                end));
      (lit "no", Json.of_option (p_no p));
      (lit "text", Json.of_option (p_text p)) ].

Definition block_json (b : block) : Json.value :=
  Json.Object
    [ (lit "lirik_no", Json.of_option (lirik_no b));
      (lit "parts", Json.Array (map part_json (parts b))) ].

(** [lirik_list or []]. *)
Definition or_nil (l : option (list block)) : list block :=
  match l with
  | Some l => l
  | None => []
  end.

(** [json.dumps(lirik_list or [], ensure_ascii=False)]. *)
Definition dumps_lirik (lirik_list : option (list block)) : str :=
  Json.dumps (Json.Array (map block_json (or_nil lirik_list))).

(* ===================================================================== *)
(** ** The [hymns] table and [upsert_hymn], the same in both scripts *)
(* ===================================================================== *)

(** The parameter dict passed to [conn.execute]: one value per named
    parameter, [None] where Python passes [None] (SQL NULL). *)
Record row := {
  buku : option str;
  no_lagu : option Z;
  judul_text : option str;
  info : option str;
  tune : option str;
  beat : option str;
  lirik_json : option str;
  source_url : option str;
  lyrics_source_url : option str;
  fetched_at : option str;
  warnings : option str
}.

(** A stored row: the AUTOINCREMENT primary key and the eleven columns. *)
Record stored := { id : Z; cols : row }.

(** The table, in rowid order, with the largest rowid handed out so far. *)
Record db := { hymns : list stored; sqlite_sequence : Z }.

Inductive outcome : Type :=
| Done (d : db)
| IntegrityError (column : string).  (* NOT NULL constraint failed *)

Definition is_null {A} (o : option A) : bool :=
  match o with
  | None => true
  | Some _ => false
  end.

(** The first column declared NOT NULL in [SCHEMA_SQL] that [r] leaves
    NULL, if any. *)
Definition not_null_violation (r : row) : option string :=
  if is_null (buku r) then Some "buku"%string
  else if is_null (no_lagu r) then Some "no_lagu"%string
  else if is_null (judul_text r) then Some "judul_text"%string
  else if is_null (lirik_json r) then Some "lirik_json"%string
  else if is_null (source_url r) then Some "source_url"%string
  else if is_null (fetched_at r) then Some "fetched_at"%string
  else None.

(** Equality of the conflict target [(buku, no_lagu)]; NULL equals nothing. *)
Definition same_key (a b : row) : bool :=
  match buku a, buku b, no_lagu a, no_lagu b with
  | Some x, Some y, Some m, Some n => Py.eqb x y && (m =? n)%Z
  | _, _, _, _ => false
  end.

(** [DO UPDATE SET ...]: the nine listed columns take the values of
    [excluded]; the key columns and [id] stay. *)
Definition do_update (old : stored) (excluded : row) : stored :=
  {| id := id old;
     cols := {| buku := buku (cols old);
                no_lagu := no_lagu (cols old);
                judul_text := judul_text excluded;
                info := info excluded;
                tune := tune excluded;
                beat := beat excluded;
                lirik_json := lirik_json excluded;
                source_url := source_url excluded;
                lyrics_source_url := lyrics_source_url excluded;
                fetched_at := fetched_at excluded;
                warnings := warnings excluded |} |}.

(** [upsert_hymn]: the INSERT with its ON CONFLICT clause, then the commit.
    A NULL in a NOT NULL column aborts the statement and raises.  Otherwise
    AUTOINCREMENT allots the next rowid to the INSERT, and the sequence keeps
    it also when the conflict turns the statement into the UPDATE. *)
Definition upsert_hymn (conn : db) (r : row) : outcome :=
  match not_null_violation r with
  | Some column => IntegrityError column
  | None =>
      let rowid := (sqlite_sequence conn + 1)%Z in
      if existsb (fun s => same_key (cols s) r) (hymns conn)
      then Done {| hymns := map (fun s => if same_key (cols s) r
                                          then do_update s r else s)
                                (hymns conn);
                   sqlite_sequence := rowid |}
      else Done {| hymns := hymns conn ++ [{| id := rowid; cols := r |}];
                   sqlite_sequence := rowid |}
  end.

(** The store a caller finds after the call, whether it returned or
    raised. *)
Definition after_upsert (conn : db) (r : row) : db :=
  match upsert_hymn conn r with
  | Done d => d
  | IntegrityError _ => conn
  end.

(** [WHERE buku = b AND no_lagu = n]. *)
Definition has_key (b : str) (n : Z) (s : stored) : bool :=
  match buku (cols s), no_lagu (cols s) with
  | Some x, Some m => Py.eqb x b && (m =? n)%Z
  | _, _ => false
  end.

(** [SELECT ... WHERE buku = b AND no_lagu = n], without the [id]. *)
Definition select_hymn (conn : db) (b : str) (n : Z) : list row :=
  map cols (filter (has_key b n) (hymns conn)).

Definition empty_db : db := {| hymns := []; sqlite_sequence := 0 |}.

(** The dict [extract_metadata_from_source] returns. *)
Record meta := {
  meta_buku : option str;
  meta_no_lagu : option Z;
  meta_judul_text : option str;
  meta_info : option str;
  meta_tune : option str;
  meta_beat : option str;
  meta_raw_title : str
}.

(** ["; ".join(warns) if warns else None]. *)
Definition join_warnings (warns : list str) : option str :=
  match warns with
  | [] => None
  | _ :: _ => Some (join (lit "; ") warns)
  end.

(* ===================================================================== *)
(** ** Source page metadata, validation and link files *)
(* ===================================================================== *)

(** The selector "tag": any element with that tag name. *)
Definition has_tag (tag : string) (n : Html.node) : bool :=
  match n with
  | Html.Elem t _ _ => Py.eqb (lit tag) t
  | Html.Text _ => false
  end.

(** [n.select("tag")] and [n.select_one("tag")]. *)
Definition select_tag (tag : string) (n : Html.node) : list Html.node :=
  filter (has_tag tag) (Html.descendants n).

Definition select_one_tag (tag : string) (n : Html.node) : option Html.node :=
  hd_error (select_tag tag n).

(** [a or b] on two optional elements: an element is always truthy. *)
Definition or_else {A} (a b : option A) : option A :=
  match a with
  | Some x => Some x
  | None => b
  end.

(** The loop of [extract_metadata_from_source] over the paragraph lines:
    the first line that starts with "do =" and the first that contains
    "ketuk", both compared in lower case; it stops once both are found. *)
Fixpoint scan_tune_beat (lines : list str) (tune beat : option str)
  : option str * option str :=
  match lines with
  | [] => (tune, beat)
  | line :: rest =>
      let l := lower (strip line) in
      let tune := if is_null tune && starts_with (lit "do =") l
                  then Some (strip line) else tune in
      let beat := if is_null beat && contains (lit "ketuk") l
                  then Some (strip line) else beat in
      if truthy tune && truthy beat then (tune, beat)
      else scan_tune_beat rest tune beat
  end.

(** The part of [extract_metadata_from_source] below the article element,
    the same in both scripts but for [split_title]. *)
Definition metadata_of_article
           (split_title : str -> option str * option Z * option str)
           (article : Html.node) : meta :=
  let title_el := or_else (Html.select_one (tag_class "h1" "entry-title") article)
                          (select_one_tag "h1" article) in
  let raw_title := match title_el with
                   | Some el => Html.get_text [] el
                   | None => []
                   end in
  let '(buku, no_lagu, judul_text) := split_title raw_title in
  let content :=
    match Html.select_one (tag_class "div" "entry-content") article with
    | Some c => c
    | None => article
    end in
  let p_texts := map (fun p => normalize (Some (Html.get_text [NL] p)))
                     (select_tag "p" content) in
  let p_texts := filter truthy p_texts in
  let info := match p_texts with
              | p :: _ => p
              | [] => None
              end in
  let '(tune, beat) :=
    scan_tune_beat (split NL (join [NL] (map or_empty p_texts))) None None in
  {| meta_buku := buku; meta_no_lagu := no_lagu;
     meta_judul_text := judul_text;
     meta_info := info; meta_tune := tune; meta_beat := beat;
     meta_raw_title := raw_title |}.

(** The article element: "article.entry", else "article.post", else
    "article". *)
Definition find_article (soup : Html.node) : option Html.node :=
  or_else (Html.select_one (tag_class "article" "entry") soup)
          (or_else (Html.select_one (tag_class "article" "post") soup)
                   (select_one_tag "article" soup)).

(** [msgs.append(m)] under a condition. *)
Definition msg_if (b : bool) (m : string) : list str :=
  if b then [lit m] else [].

(** The four checks on the metadata that both validators make. *)
Definition missing_fields (m : meta) : list str :=
  msg_if (negb (truthy (meta_buku m))) "Missing buku"
  ++ msg_if (is_null (meta_no_lagu m)) "Missing no_lagu"
  ++ msg_if (negb (truthy (meta_judul_text m))) "Missing judul_text"
  ++ msg_if (negb (truthy (meta_info m))) "Missing info".

(** The lines a text file yields: the text is read with universal newlines
    and cut at every newline.  After a final newline the last piece is
    empty; the readers below skip it like any blank line. *)
Definition file_lines (content : str) : list str :=
  split NL (unify_newlines content).

(** [read_links]: [None] stands for a path that does not exist. *)
Definition read_links (file : option str) : list str :=
  match file with
  | None => []
  | Some content =>
      filter (fun s => truthy (Some s) && negb (starts_with (lit "#") s))
             (map strip (file_lines content))
  end.

(** A bare result or exception as a computation. *)
Definition lift {A} (r : exn + A) : M A := fun st => (r, st).

(** What a run of [process_file] works on: the database and the requests
    made so far. *)
Record world := { w_db : db; w_state : state }.

(** [meta["buku"] = b]. *)
Definition set_buku (m : meta) (b : option str) : meta :=
  {| meta_buku := b; meta_no_lagu := meta_no_lagu m;
     meta_judul_text := meta_judul_text m;
     meta_info := meta_info m; meta_tune := meta_tune m;
     meta_beat := meta_beat m; meta_raw_title := meta_raw_title m |}.

(** Lyrics as the callers of the resolver hold them: the blocks, the URL
    they came from, if any, and the resolver's warnings. *)
Definition lyrics : Type := (option (list block) * option str * list str)%type.

(** The branch taken when songbook or number is missing. *)
Definition no_lyrics : lyrics :=
  (None, None, [lit "Cannot fetch alkitab.app lyrics: buku/no_lagu not available."]).

(** [meta.get("buku") and meta.get("no_lagu") is not None]. *)
Definition has_identity (m : meta) : bool :=
  truthy (meta_buku m) && negb (is_null (meta_no_lagu m)).

(** [int(meta["no_lagu"])] where it is known to be present. *)
Definition number_of (m : meta) : Z :=
  match meta_no_lagu m with
  | Some n => n
  | None => 0%Z
  end.

(* ===================================================================== *)
(** ** The two scrapers *)
(* ===================================================================== *)

Module GetNkb24.

(** [TITLE_RE_STRICT], compiled with [re.IGNORECASE] from the pattern (its parts
    spaced out) "^ (KJ|PKJ|NKB) \s+ 0* (\d+) \s* (?:[-—–]|,) \s+ ( .* ) $". *)
Definition TITLE_RE_STRICT : Re.re :=
  Re.Seq Re.Bol
  (Re.Seq (Re.Group 1 codes)
  (Re.Seq (Re.Plus ws)
  (Re.Seq (Re.Star (Re.lit_ci 48))
  (Re.Seq (Re.Group 2 (Re.Plus digit))
  (Re.Seq (Re.Star ws)
  (Re.Seq (Re.Alt (Re.Chr (Re.one_of [HYPHEN; EM_DASH; EN_DASH]))
                  (Re.lit_ci COMMA))
  (Re.Seq (Re.Plus ws)
  (Re.Seq (Re.Group 3 (Re.Star (Re.Chr Re.is_dot)))
          Re.Eol)))))))).

(** [TITLE_RE_FUZZY], compiled with [re.IGNORECASE] from the pattern (its parts
    spaced out) "(KJ|PKJ|NKB) \s+ 0* (\d+) \b". *)
Definition TITLE_RE_FUZZY : Re.re :=
  Re.Seq (Re.Group 1 codes)
  (Re.Seq (Re.Plus ws)
  (Re.Seq (Re.Star (Re.lit_ci 48))
  (Re.Seq (Re.Group 2 (Re.Plus digit))
          Re.WordB))).

(** "^[-—–,]\s*", the separator removed in front of a fuzzy title. *)
Definition LEADING_SEP : Re.re :=
  Re.Seq Re.Bol
  (Re.Seq (Re.Chr (Re.one_of [HYPHEN; EM_DASH; EN_DASH; COMMA]))
          (Re.Star ws)).

(** [get_nkb_24.split_title]. *)
Definition split_title (raw_title : str)
  : option str * option Z * option str :=
  let t := or_empty (normalize (Some raw_title)) in
  match Re.match_ TITLE_RE_STRICT t with
  | Some m =>
      let buku := upper (or_empty (Re.group t m 1)) in
      let no_lagu := int_of_digits (or_empty (Re.group t m 2)) in
      let judul_text := or_none (strip (or_empty (Re.group t m 3))) in
      (Some buku, Some no_lagu, judul_text)
  | None =>
      match Re.search TITLE_RE_FUZZY t with
      | Some m2 =>
          let buku := upper (or_empty (Re.group t m2 1)) in
          let no_lagu := int_of_digits (or_empty (Re.group t m2 2)) in
          let rest := lstrip (skipn (Re.m_end m2) t) in
          let rest := Re.sub LEADING_SEP [] rest in
          (Some buku, Some no_lagu, or_none rest)
      | None => (None, None, or_none t)
      end
  end.

Section Resolver.
Variable BeautifulSoup : str -> Html.node.
Variable s : session.

(** The body of the first [try], which ends in a [return] or raises. *)
Definition try_base (base : str) : M resolved :=
  h <- fetch_html s base ;;
  when (page_says_no_such_song h)
       (warns_append (lit "alkitab.app says 'no such song' (base); will try 'A'.") ;;
        raise (Exception (lit "no such song"))) ;;
  let lst := parse_alkitab_page BeautifulSoup h in
  (if no_blocks lst
   then warns_append (lit "no .lagu/.lirik found (base)")
   else when (all_parts_empty (or_nil lst))
             (warns_append (lit "no parts found (base)"))) ;;
  w <- get_warns ;;
  ret (lst, base, w).

(** The two [except] clauses of the first [try].  [e.response] is tested
    for truth, and a response is true only when its status is no error. *)
Definition except_base (e : exn) : M unit :=
  match e with
  | HTTPError status _ =>
      let code := match status with
                  | Some c => if response_ok c then str_of_int c else lit "?"
                  | None => lit "?"
                  end in
      if Py.eqb code (lit "404")
      then warns_append (lit "HTTP 404 (base); will try 'A'.")
      else warns_append (lit "HTTP " ++ code ++ lit " (base)")
  | Exception msg =>
      when (negb (contains (lit "no such song") (lower msg)))
           (warns_append (lit "parse error (base): " ++ msg))
  end.

(** The body of the second [try]. *)
Definition try_a (aurl : str) : M resolved :=
  h2 <- fetch_html s aurl ;;
  if page_says_no_such_song h2 then
    warns_append (lit "alkitab.app says 'no such song' (A).") ;;
    w <- get_warns ;;
    ret (None, aurl, w)
  else
    let lst2 := parse_alkitab_page BeautifulSoup h2 in
    (if no_blocks lst2
     then warns_append (lit "no .lagu/.lirik found (A)")
     else when (all_parts_empty (or_nil lst2))
               (warns_append (lit "no parts found (A)"))) ;;
    warns_append (lit "used 'A' suffix fallback.") ;;
    w <- get_warns ;;
    ret (lst2, aurl, w).

(** The single [except Exception] clause of the second [try]. *)
Definition except_a (e : exn) : M unit :=
  let msg := match e with
             | HTTPError _ msg => msg
             | Exception msg => msg
             end in
  warns_append (lit "A-suffix fetch/parse error: " ++ msg).

(** [get_nkb_24.fetch_lyrics_from_alkitab].  Each [try] gives [Some] of
    the value it returns, or [None] when control falls out of its
    handlers. *)
Definition fetch_lyrics_from_alkitab (buku : str) (no_lagu : Z) : M resolved :=
  new_warns ;;
  let base := build_alkitab_url buku no_lagu in
  r <- try_except (r <- try_base base ;; ret (Some r))
                  (fun e => except_base e ;; ret None) ;;
  match r with
  | Some r => ret r
  | None =>
      let aurl := base ++ lit "A" in
      r <- try_except (r <- try_a aurl ;; ret (Some r))
                      (fun e => except_a e ;; ret None) ;;
      match r with
      | Some r => ret r
      | None => w <- get_warns ;; ret (None, aurl, w)
      end
  end.
End Resolver.

(** [SOURCE_URL]. *)
Definition SOURCE_URL : str :=
  lit "https://www.gkiharapanindah.org/nyanyian-jemaat/nyanyikanlah-kidung-baru/nkb-024-tuhan-kasihanilah-kami/".

(** The dict [row] built in [get_nkb_24.main]; [now] is the formatted
    [datetime.utcnow()]. *)
Definition main_row (now : str) (m : meta)
           (lirik_list : option (list block))
           (lyrics_url : option str) (warns : list str)
  : row :=
  {| buku := meta_buku m;
     no_lagu := meta_no_lagu m;
     judul_text := meta_judul_text m;
     info := meta_info m;
     tune := meta_tune m;
     beat := meta_beat m;
     lirik_json := Some (dumps_lirik lirik_list);
     source_url := Some SOURCE_URL;
     lyrics_source_url := lyrics_url;
     fetched_at := Some now;
     warnings := join_warnings warns |}.

(** [get_nkb_24.extract_metadata_from_source]; the [ValueError] has the
    type's message. *)
Definition extract_metadata_from_source
           (BeautifulSoup : str -> Html.node) (html : str) : exn + meta :=
  match find_article (BeautifulSoup html) with
  | None => inl (Exception (lit "Article element not found."))
  | Some article => inr (metadata_of_article split_title article)
  end.

(** [get_nkb_24.validate]; the log line it writes is left out. *)
Definition validate (m : meta) (lirik : option (list block)) (url : str)
  : list str :=
  missing_fields m
  ++ msg_if (no_blocks lirik || all_parts_empty (or_nil lirik)) "No lirik found".

Section Main.
Variable BeautifulSoup : str -> Html.node.
Variable s : session.
(** The clock [datetime.utcnow()] as formatted for the row, read as a
    function of the requests made so far. *)
Variable utcnow : list str -> str.

(** [get_nkb_24.main] on the database [conn] that [init_db] opens: the
    database after the upsert, and the [has_lirik] flag of the summary it
    prints.  Nothing is caught: a failure of the source request, of the
    metadata extraction or of the upsert ends the run. *)
Definition main (conn : db) : M (db * bool) :=
  html <- fetch_html s SOURCE_URL ;;
  m <- lift (extract_metadata_from_source BeautifulSoup html) ;;
  l <- (if has_identity m
        then r <- fetch_lyrics_from_alkitab BeautifulSoup s
                    (or_empty (meta_buku m)) (number_of m) ;;
             ret (fst (fst r), Some (snd (fst r)), snd r)
        else ret no_lyrics) ;;
  let '(lirik_list, lyrics_url, lyric_warns) := l in
  let warns := validate m lirik_list SOURCE_URL ++ lyric_warns in
  fun st =>
    let r := main_row (utcnow (log st)) m lirik_list lyrics_url warns in
    match upsert_hymn conn r with
    | Done d =>
        (inr (d, negb (no_blocks lirik_list)
                 && existsb (fun blk => match parts blk with
                                        | [] => false
                                        | _ :: _ => true
                                        end) (or_nil lirik_list)), st)
    | IntegrityError column =>
        (inl (Exception (lit "NOT NULL constraint failed: hymns." ++ lit column)), st)
    end.
End Main.

End GetNkb24.

Module Kjpkjnkb.

(** [TITLE_RE], compiled with [re.IGNORECASE] from the pattern (its parts
    spaced out) "^ (KJ|PKJ|NKB) \s+ (\d+) \s+ [-–] \s+ ( .* ) $". *)
Definition TITLE_RE : Re.re :=
  Re.Seq Re.Bol
  (Re.Seq (Re.Group 1 codes)
  (Re.Seq (Re.Plus ws)
  (Re.Seq (Re.Group 2 (Re.Plus digit))
  (Re.Seq (Re.Plus ws)
  (Re.Seq (Re.Chr (Re.one_of [HYPHEN; EN_DASH]))
  (Re.Seq (Re.Plus ws)
  (Re.Seq (Re.Group 3 (Re.Star (Re.Chr Re.is_dot)))
          Re.Eol))))))).

(** [kjpkjnkb.split_title]. *)
Definition split_title (raw_title : str)
  : option str * option Z * option str :=
  let t := or_empty (normalize_preserve_newlines (Some raw_title)) in
  match Re.match_ TITLE_RE t with
  | None => (None, None, or_none t)
  | Some m =>
      let buku := upper (or_empty (Re.group t m 1)) in
      let no_lagu := int_of_digits (or_empty (Re.group t m 2)) in
      let judul_text := or_none (strip (or_empty (Re.group t m 3))) in
      (Some buku, Some no_lagu, judul_text)
  end.

Section Resolver.
Variable BeautifulSoup : str -> Html.node.
Variable s : session.

(** The body of the first [try], which ends in a [return] or raises. *)
Definition try_base (url_base : str) : M resolved :=
  html <- fetch_html s url_base ;;
  when (page_says_no_such_song html)
       (warns_append (lit "alkitab.app responded 'no such song' (base); retry with 'A' suffix.") ;;
        raise (Exception (lit "no such song (base)"))) ;;
  let lirik_list := parse_alkitab_page BeautifulSoup html in
  (if no_blocks lirik_list
   then warns_append (lit "no .lagu/.lirik found at alkitab.app (base)")
   else when (all_parts_empty (or_nil lirik_list))
             (warns_append (lit "no parts (bait/reff) found at alkitab.app (base)"))) ;;
  w <- get_warns ;;
  ret (lirik_list, url_base, w).

(** The two [except] clauses of the first [try]. *)
Definition except_base (e : exn) : M unit :=
  match e with
  | HTTPError status _ =>
      let code := match status with
                  | Some c => str_of_int c
                  | None => lit "?"
                  end in
      if Py.eqb code (lit "404")
      then warns_append (lit "HTTP 404 at alkitab.app (base); retry with 'A' suffix.")
      else warns_append (lit "alkitab.app fetch failed (base): HTTP " ++ code)
  | Exception msg =>
      if contains (lit "no such song") (lower msg)
      then ret tt
      else warns_append (lit "alkitab.app parse error (base): " ++ msg)
  end.

(** The body of the second [try]. *)
Definition try_a (url_a : str) : M resolved :=
  html_a <- fetch_html s url_a ;;
  if page_says_no_such_song html_a then
    warns_append (lit "alkitab.app responded 'no such song' (A variant).") ;;
    w <- get_warns ;;
    ret (None, url_a, w)
  else
    let lirik_list_a := parse_alkitab_page BeautifulSoup html_a in
    (if no_blocks lirik_list_a
     then warns_append (lit "no .lagu/.lirik found at alkitab.app (A variant).")
     else when (all_parts_empty (or_nil lirik_list_a))
               (warns_append (lit "no parts (bait/reff) found at alkitab.app (A variant).")))
      ;;
    warns_append (lit "used 'A' suffix fallback.") ;;
    w <- get_warns ;;
    ret (lirik_list_a, url_a, w).

(** The two [except] clauses of the second [try]. *)
Definition except_a (e : exn) : M unit :=
  match e with
  | HTTPError status _ =>
      let code := match status with
                  | Some c => str_of_int c
                  | None => lit "?"
                  end in
      warns_append (lit "alkitab.app fetch failed (A variant): HTTP " ++ code)
  | Exception msg =>
      warns_append (lit "alkitab.app parse error (A variant): " ++ msg)
  end.

(** [kjpkjnkb.fetch_lyrics_from_alkitab].  Each [try] gives [Some] of the
    value it returns, or [None] when control falls out of its handlers. *)
Definition fetch_lyrics_from_alkitab (buku : str) (no_lagu : Z) : M resolved :=
  new_warns ;;
  let url_base := build_alkitab_url buku no_lagu in
  r <- try_except (r <- try_base url_base ;; ret (Some r))
                  (fun e => except_base e ;; ret None) ;;
  match r with
  | Some r => ret r
  | None =>
      let url_a := url_base ++ lit "A" in
      r <- try_except (r <- try_a url_a ;; ret (Some r))
                      (fun e => except_a e ;; ret None) ;;
      match r with
      | Some r => ret r
      | None => w <- get_warns ;; ret (None, url_a, w)
      end
  end.
End Resolver.

(** [kjpkjnkb.to_db_row]; [now] is the formatted [datetime.utcnow()]. *)
Definition to_db_row (now : str) (m : meta) (source_url : str)
           (lirik_list : option (list block))
           (lyrics_source_url : option str) (extra_warnings : list str)
  : row :=
  let lirik_json := dumps_lirik lirik_list in
  {| buku := meta_buku m;
     no_lagu := meta_no_lagu m;
     judul_text := meta_judul_text m;
     info := meta_info m;
     tune := meta_tune m;
     beat := meta_beat m;
     lirik_json := Some lirik_json;
     source_url := Some source_url;
     lyrics_source_url := lyrics_source_url;
     fetched_at := Some now;
     warnings := join_warnings extra_warnings |}.

(** [kjpkjnkb.extract_metadata_from_source]; the [ValueError] has the
    type's message. *)
Definition extract_metadata_from_source
           (BeautifulSoup : str -> Html.node) (html : str) : exn + meta :=
  match find_article (BeautifulSoup html) with
  | None => inl (Exception (lit "Article element not found with expected selectors."))
  | Some article => inr (metadata_of_article split_title article)
  end.

(** [kjpkjnkb.enforce_required_fields]; the log line it writes is left
    out. *)
Definition enforce_required_fields (m : meta)
           (lirik_list : option (list block)) (url : str) : list str :=
  missing_fields m
  ++ (if no_blocks lirik_list then [lit "No lirik found"]
      else msg_if (all_parts_empty (or_nil lirik_list)) "No lirik parts found").

Section Scraper.
Variable BeautifulSoup : str -> Html.node.
Variable s : session.
(** The clock [datetime.utcnow()] as formatted by [to_db_row], read as a
    function of the requests made so far. *)
Variable utcnow : list str -> str.
(** [random.sample]. *)
Variable random_sample : list str -> nat -> list str.

(** [kjpkjnkb.scrape_one]. *)
Definition scrape_one (url : str) (expected_buku : option str) : M row :=
  html <- fetch_html s url ;;
  m <- lift (extract_metadata_from_source BeautifulSoup html) ;;
  let m := if negb (truthy (meta_buku m)) && truthy expected_buku
           then set_buku m (Some (upper (or_empty expected_buku)))
           else m in
  l <- (if has_identity m
        then r <- fetch_lyrics_from_alkitab BeautifulSoup s
                    (or_empty (meta_buku m)) (number_of m) ;;
             ret (fst (fst r), Some (snd (fst r)), snd r)
        else ret no_lyrics) ;;
  let '(lirik_list, lyrics_source_url, lyric_warns) := l in
  let key_warns := enforce_required_fields m lirik_list url in
  let all_warns := key_warns ++ lyric_warns in
  fun st => (inr (to_db_row (utcnow (log st)) m url lirik_list
                            lyrics_source_url all_warns), st).

(** One round of the loop of [process_file]: the counters [(ok, err)] and
    the world after the link [url]. *)
Definition process_link (hymnal : str) (acc : nat * nat * world) (url : str)
  : nat * nat * world :=
  let '(ok, err, w) := acc in
  match scrape_one url (Some hymnal) (w_state w) with
  | (inr r, st) =>
      match upsert_hymn (w_db w) r with
      | Done d => (S ok, err, {| w_db := d; w_state := st |})
      | IntegrityError _ => (ok, S err, {| w_db := w_db w; w_state := st |})
      end
  | (inl (HTTPError _ _), st) => (ok, S err, {| w_db := w_db w; w_state := st |})
  | (inl (Exception _), st) => (ok, S err, {| w_db := w_db w; w_state := st |})
  end.

(** [kjpkjnkb.process_file]; [file] is the content of the link file, if it
    exists.  Logging and the pause between links are left out. *)
Definition process_file (hymnal : str) (file : option str) (testing : bool)
           (w : world) : nat * nat * world :=
  let links := read_links file in
  match links with
  | [] => (O, O, w)
  | _ :: _ =>
      let links := if testing
                   then random_sample links (Nat.min 5 (List.length links))
                   else links in
      fold_left (process_link hymnal) links (O, O, w)
  end.
End Scraper.

Section Entry.
Variable BeautifulSoup : str -> Html.node.
Variable s : session.
Variable utcnow : list str -> str.
Variable random_sample : list str -> nat -> list str.

(** [kjpkjnkb.main] once the arguments are parsed and [init_db] has opened
    the database: the three link files in turn, and the totals it logs. *)
Definition main (kj pkj nkb : option str) (testing : bool) (w : world)
  : nat * nat * world :=
  fold_left
    (fun (acc : nat * nat * world) (hf : string * option str) =>
       let '(total_ok, total_err, w) := acc in
       let '(ok, err, w') :=
         process_file BeautifulSoup s utcnow random_sample
                      (lit (fst hf)) (snd hf) testing w in
       ((total_ok + ok)%nat, (total_err + err)%nat, w'))
    [ ("KJ"%string, kj); ("PKJ"%string, pkj); ("NKB"%string, nkb) ]
    (O, O, w).
End Entry.

End Kjpkjnkb.

(** *** Vocabulary for the normaliser's properties *)

(** Number of newline characters at the head of [s]. *)
Fixpoint count_nl (s : str) : nat :=
  match s with
  | c :: s' => if c =? NL then S (count_nl s') else O
  | [] => O
  end.

(** The greedy match of [\n{3,}] at the head of [s], as its length. *)
Definition match_nl3 (s : str) : option nat :=
  let k := count_nl s in
  if (3 <=? k)%nat then Some k else None.

(** The substitution of "\n{3,}" by "\n\n" as a scan that counts newlines:
    where three or more stand, emit two and pass over the run. *)
Fixpoint sub_nl3_from (skip : nat) (s : str) : str :=
  match s with
  | [] => []
  | c :: s' =>
      match skip with
      | S k => sub_nl3_from k s'
      | O =>
          match match_nl3 s with
          | Some k => NL :: NL :: sub_nl3_from (pred k) s'
          | None => c :: sub_nl3_from 0 s'
          end
      end
  end.

Definition sub_nl3 (s : str) : str := sub_nl3_from 0 s.

(** The string core of the normaliser, with the substitution as that scan. *)
Definition normalize_str (s : str) : str :=
  strip (sub_nl3 (strip_lines (unify_newlines (replace_punct s)))).

(** A string that [strip] leaves alone. *)
Definition stripped (s : str) : Prop := strip s = s.

(** Length of the longest run of consecutive newlines in [s]. *)
Fixpoint max_nl_run (s : str) : nat :=
  match s with
  | [] => O
  | _ :: s' => Nat.max (count_nl s) (max_nl_run s')
  end.

(** [c] is a key of [PUNCT_MAP]. *)
Definition punct_key (c : char) : bool :=
  existsb (fun kv => c =? fst kv) PUNCT_MAP.

(** What the [PUNCT_MAP] loop does to one character. *)
Definition subst_punct (m : list (char * char)) (c : char) : char :=
  fold_left (fun a kv => if a =? fst kv then snd kv else a) m c.

(** A character that the first two phases leave alone. *)
Definition plain (c : char) : Prop := punct_key c = false /\ c <> CR.

(** [ls] keeps the first line of [ms] and takes its later lines from those
    of [ms]. *)
Definition refines (ls ms : list str) : Prop :=
  hd [] ls = hd [] ms /\ incl (tl ls) (tl ms).


(** *** Vocabulary for the resolver's properties *)



(** Lyric blocks that call for no warning: at least one block, and not all
    of them without parts. *)
Definition valid_blocks (l : list block) : bool :=
  negb (no_blocks (Some l)) && negb (all_parts_empty l).


(** *** Vocabulary for the store's properties *)

(** The UNIQUE constraint on [(buku, no_lagu)]. *)
Definition unique_keys (d : db) : Prop :=
  forall b n, (List.length (select_hymn d b n) <= 1)%nat.

(** *** Sample pages, sessions and rows *)

Definition document (children : list Html.node) : Html.node :=
  Html.Elem (lit "[document]") [] children.

Definition div (cls : list string) (children : list Html.node) : Html.node :=
  Html.Elem (lit "div") (map lit cls) children.

(** A lyrics page with one block: verse 1, the refrain, verse 2. *)
Definition lyrics_tree : Html.node :=
  document
    [ div ["lagu"%string]
        [ div ["judul"%string] [Html.Text (lit "NKB 24A")];
          div ["lirik"%string]
            [ div ["lirik_no"%string] [Html.Text (lit "Lirik 1")];
              div ["bait"%string]
                [ div ["bait-no"%string] [Html.Text (lit "1.")];
                  div ["baris"%string] [Html.Text (lit " Tuhan, kasihanilah ")];
                  div ["baris"%string] [Html.Text (lit "kami")] ];
              div ["bait"%string; "reff"%string]
                [ div ["baris"%string] [Html.Text (lit "Kasihanilah kami")] ];
              div ["bait"%string]
                [ div ["bait-no"%string] [Html.Text (lit "2")];
                  div ["baris"%string] [Html.Text (lit "Kristus, kasihanilah")] ] ] ] ].

(** A page with the song container and no lyric block in it. *)
Definition hollow_tree : Html.node :=
  document [ div ["lagu"%string] [ div ["judul"%string] [Html.Text (lit "NKB 24")] ] ].

Definition lyrics_page : str := lit "<div class='lagu'>...lyrics...</div>".
Definition hollow_page : str := lit "<div class='lagu'></div>".
Definition missing_page : str := lit "<p>No such song</p>".
Definition blank_page : str := lit "<html></html>".

(** A stand-in for the HTML parser, defined on the sample pages; any other
    text is one text node. *)
Definition sample_soup (html : str) : Html.node :=
  if Py.eqb html lyrics_page then lyrics_tree
  else if Py.eqb html hollow_page then hollow_tree
  else document [Html.Text html].

Definition nkb24 : str := build_alkitab_url (lit "NKB") 24.

(** The site as it answers for NKB 24: no song at the plain number, the
    lyrics at the 'A' variant. *)
Definition fallback_session : session :=
  fun url => if Py.eqb url (nkb24 ++ lit "A") then inr lyrics_page
             else inr missing_page.

(** A site that answers every request with a page without song container. *)
Definition blank_session : session := fun _ => inr blank_page.

(** A site that answers every request with status 404. *)
Definition down_session : session :=
  fun _ => inl (HTTPError (Some 404%Z) (lit "404 Client Error: Not Found")).

Definition fresh : state := {| log := []; warns := [] |}.

(** The metadata of a source page that has the heading [heading] and no
    paragraph: the three fields [split_title] gives, the rest absent. *)
Definition heading_meta (heading : str) : meta :=
  let '(buku, no_lagu, judul_text) := GetNkb24.split_title heading in
  {| meta_buku := buku; meta_no_lagu := no_lagu;
     meta_judul_text := judul_text;
     meta_info := None; meta_tune := None; meta_beat := None;
     meta_raw_title := heading |}.

(** NKB 24 as first fetched: its lyrics found at the 'A' variant. *)
Definition first_row : row :=
  GetNkb24.main_row (lit "2024-04-07T10:00:00Z")
                    (heading_meta (lit "NKB 024, Tuhan Kasihanilah Kami"))
                    (parse_alkitab_page sample_soup lyrics_page)
                    (Some (nkb24 ++ lit "A"))
                    [ lit "Missing info";
                      lit "alkitab.app says 'no such song' (base); will try 'A'.";
                      lit "used 'A' suffix fallback." ].

(** A later fetch of the same song that found no lyrics. *)
Definition second_row : row :=
  GetNkb24.main_row (lit "2024-04-08T10:00:00Z")
                    (heading_meta (lit "NKB 024, Tuhan Kasihanilah Kami"))
                    None
                    (Some (nkb24 ++ lit "A"))
                    [ lit "Missing info"; lit "No lirik found";
                      lit "HTTP ? (base)";
                      lit "A-suffix fetch/parse error: 404 Client Error: Not Found" ].

(** A later fetch of the same song, the page's heading now "NKB 024" with
    no title after the number. *)
Definition untitled_row : row :=
  GetNkb24.main_row (lit "2024-04-08T10:00:00Z")
                    (heading_meta (lit "NKB 024"))
                    None
                    (Some (nkb24 ++ lit "A"))
                    [ lit "Missing judul_text"; lit "Missing info";
                      lit "No lirik found"; lit "HTTP ? (base)";
                      lit "A-suffix fetch/parse error: 404 Client Error: Not Found" ].

(** *** Vocabulary for the further properties *)

(** Row ids are distinct and none is above the sequence. *)
Definition ids_fresh (d : db) : Prop :=
  NoDup (map id (hymns d))
  /\ Forall (fun s => (id s <= sqlite_sequence d)%Z) (hymns d).

(** The base page sends the resolver on to the 'A' variant: the request
    raised, or the page carries the "no such song" marker. *)
Definition second_stage (s : session) (url_base : str) : bool :=
  match s url_base with
  | inl _ => true
  | inr html => page_says_no_such_song html
  end.

(** A resolver run from [st] seen through its requests: it asks for the base
    URL, then for the 'A' variant only if sent on, and for nothing else; the
    URL it returns is the last one asked for, and the blocks it returns are
    absent or the parse of the page at that URL. *)
Definition resolves_by_requests (BeautifulSoup : str -> Html.node)
           (run : M resolved) (s : session) (url_base : str) (st : state)
  : Prop :=
  exists blocks url ws st',
    run st = (inr (blocks, url, ws), st')
    /\ warns st' = ws
    /\ (if second_stage s url_base
        then log st' = log st ++ [url_base; url_base ++ lit "A"]
             /\ url = url_base ++ lit "A"
        else log st' = log st ++ [url_base] /\ url = url_base)
    /\ (blocks = None
        \/ exists html, s url = inr html
                        /\ blocks = parse_alkitab_page BeautifulSoup html).


(** A run that returns, with an empty list of warnings. *)
Definition clean_result (run : M resolved) (st : state) : Prop :=
  exists blocks url st', run st = (inr (blocks, url, []), st').

(** The base request gives a page without the marker that parses into
    valid blocks. *)
Definition base_lyrics (BeautifulSoup : str -> Html.node) (s : session)
           (url_base : str) : Prop :=
  exists html l,
    s url_base = inr html
    /\ page_says_no_such_song html = false
    /\ parse_alkitab_page BeautifulSoup html = Some l
    /\ valid_blocks l = true.


(** *** Vocabulary for the validators, the link files and the source pages *)

(** A record that calls for no message: songbook, number, title and info
    present, and lyric blocks of which one at least has parts. *)
Definition complete (m : meta) (l : option (list block)) : Prop :=
  truthy (meta_buku m) = true
  /\ meta_no_lagu m <> None
  /\ truthy (meta_judul_text m) = true
  /\ truthy (meta_info m) = true
  /\ exists blocks, l = Some blocks /\ valid_blocks blocks = true.

(** A link as [read_links] returns it: not empty, no white space around
    it, no "#" in front, no line break inside. *)
Definition clean_link (l : str) : Prop :=
  l <> [] /\ stripped l /\ starts_with (lit "#") l = false
  /\ Forall (fun c => c <> NL /\ c <> CR) l.

(** The tests the scan of the paragraph lines makes on a line. *)
Definition is_tune_line (line : str) : bool :=
  starts_with (lit "do =") (lower (strip line)).

Definition is_beat_line (line : str) : bool :=
  contains (lit "ketuk") (lower (strip line)).


(** The source page of [url] cannot be used: the request raises, or the
    page has no "article" element. *)
Definition source_unusable (BeautifulSoup : str -> Html.node) (s : session)
           (url : str) : Prop :=
  (exists e, s url = inl e)
  \/ (exists html, s url = inr html
                   /\ select_tag "article" (BeautifulSoup html) = []).


(** *** A sample source site *)

Definition elem (tag : string) (cls : list string) (children : list Html.node)
  : Html.node :=
  Html.Elem (lit tag) (map lit cls) children.

(** A source page: the article with its heading and two paragraphs. *)
Definition source_tree (heading : string) : Html.node :=
  document
    [ elem "article" ["entry"%string]
        [ elem "h1" ["entry-title"%string] [Html.Text (lit heading)];
          div ["entry-content"%string]
            [ elem "p" [] [Html.Text (lit "Syair: Kyrie eleison")];
              elem "p" [] [Html.Text (lit "do = g"); Html.Text (lit " 4 ketuk ")] ] ] ].

Definition dash_page : str := lit "<article>NKB 24 - Tuhan Kasihanilah Kami</article>".
Definition comma_page : str := lit "<article>NKB 024, Tuhan Kasihanilah Kami</article>".

(** The parser on the two source pages and the sample lyrics pages. *)
Definition site_soup (html : str) : Html.node :=
  if Py.eqb html dash_page then source_tree "NKB 24 - Tuhan Kasihanilah Kami"
  else if Py.eqb html comma_page then source_tree "NKB 024, Tuhan Kasihanilah Kami"
  else sample_soup html.

Definition dash_url : str := lit "https://source.example/nkb-24/".

(** A site with the song once under a dash-style heading and once, at the
    address get_nkb_24 reads, under a comma-style one; the lyrics are at
    the base URL, and every other request gets status 404. *)
Definition site : session :=
  fun url => if Py.eqb url dash_url then inr dash_page
             else if Py.eqb url GetNkb24.SOURCE_URL then inr comma_page
             else if Py.eqb url nkb24 then inr lyrics_page
             else down_session url.

Definition noon : list str -> str := fun _ => lit "2024-04-07T12:00:00Z".

Definition start : world := {| w_db := empty_db; w_state := fresh |}.

(** What the source page under the dash-style heading says. *)
Definition dash_meta : meta :=
  {| meta_buku := Some (lit "NKB"); meta_no_lagu := Some 24%Z;
     meta_judul_text := Some (lit "Tuhan Kasihanilah Kami");
     meta_info := Some (lit "Syair: Kyrie eleison");
     meta_tune := Some (lit "do = g"); meta_beat := Some (lit "4 ketuk");
     meta_raw_title := lit "NKB 24 - Tuhan Kasihanilah Kami" |}.

(** The row [scrape_one] makes of that page on the sample site. *)
Definition dash_row : row :=
  Kjpkjnkb.to_db_row (noon []) dash_meta dash_url
                     (parse_alkitab_page site_soup lyrics_page)
                     (Some nkb24) [].


(** The heading of a source page gives songbook, number and title, the
    three columns of a row that the schema wants and the page must
    supply. *)
Definition heading_usable (m : meta) : bool :=
  negb (is_null (meta_buku m)) && negb (is_null (meta_no_lagu m))
  && negb (is_null (meta_judul_text m)).


(** What the source page under the comma-style heading says to
    get_nkb_24. *)
Definition comma_meta : meta :=
  {| meta_buku := Some (lit "NKB"); meta_no_lagu := Some 24%Z;
     meta_judul_text := Some (lit "Tuhan Kasihanilah Kami");
     meta_info := Some (lit "Syair: Kyrie eleison");
     meta_tune := Some (lit "do = g"); meta_beat := Some (lit "4 ketuk");
     meta_raw_title := lit "NKB 024, Tuhan Kasihanilah Kami" |}.


(** A text in normal form: none of the characters the normaliser replaces,
    no white space around the text or around any of its lines, and at most
    two newlines in a row. *)
Definition normal_form (t : str) : Prop :=
  Forall plain t /\ stripped t /\ Forall stripped (split NL t)
  /\ (max_nl_run t <= 2)%nat.


(** The links [process_file] works on: those of the file, or the sample
    taken of them when testing. *)
Definition links_worked_on (random_sample : list str -> nat -> list str)
           (file : option str) (testing : bool) : list str :=
  match read_links file with
  | [] => []
  | l :: ls =>
      if testing
      then random_sample (l :: ls) (Nat.min 5 (List.length (l :: ls)))
      else l :: ls
  end.

(* ===================================================================== *)
(** * Properties *)
(* ===================================================================== *)

Example normalize_sample :
  normalize (Some ([32; 8216] ++ lit "a" ++ [8217; 13; 10; 32; 13; 13; 10; 10]
                            ++ lit " b  " ++ [10; 10]))
  = Some (lit "'a'" ++ [10; 10] ++ lit "b").
Proof. vm_compute. reflexivity. Qed.

(** ** Replacement *)

Lemma replace_single (k v : char) (s : str) :
  replace [k] [v] s = map (fun c => if c =? k then v else c) s.
Proof.
  unfold replace. induction s as [|c s IH]; simpl; [reflexivity|].
  rewrite N.eqb_sym, andb_true_r.
  destruct (c =? k); simpl; now rewrite IH.
Qed.

Lemma replace_absent (h : char) (old new s : str) :
  Forall (fun c => c <> h) s -> replace (h :: old) new s = s.
Proof.
  unfold replace. induction 1 as [|c s Hc _ IH]; simpl; [reflexivity|].
  destruct (N.eqb_spec h c) as [->|_]; [now elim Hc|].
  simpl. now rewrite IH.
Qed.

Lemma replace_from_Forall (P : char -> Prop) (old new : str) :
  Forall P new ->
  forall s n, Forall P s -> Forall P (replace_from old new n s).
Proof.
  intros Hn s. induction s as [|c s IH]; intros n Hs; simpl; [constructor|].
  inversion Hs; subst.
  destruct n; [|now apply IH].
  destruct (starts_with old (c :: s)).
  - apply Forall_app; split; [assumption|now apply IH].
  - constructor; [assumption|now apply IH].
Qed.

Lemma replace_punct_map (s : str) :
  replace_punct s = map (subst_punct PUNCT_MAP) s.
Proof.
  unfold replace_punct, subst_punct.
  generalize PUNCT_MAP as m. intros m. revert s.
  induction m as [|[k v] m IH]; intros s; simpl.
  - now rewrite map_id.
  - rewrite IH, replace_single, map_map. reflexivity.
Qed.

Ltac case_codes :=
  repeat match goal with
         | |- context [N.eqb ?c ?k] =>
             is_var c; destruct (N.eqb_spec c k); subst; simpl
         end.

Lemma subst_punct_not_key (c : char) :
  punct_key (subst_punct PUNCT_MAP c) = false.
Proof.
  unfold subst_punct, PUNCT_MAP. simpl fold_left.
  case_codes; try reflexivity.
  unfold punct_key, PUNCT_MAP; simpl.
  repeat match goal with
         | H : ?c <> ?k |- _ =>
             apply N.eqb_neq in H; rewrite H; clear H
         end.
  reflexivity.
Qed.

Lemma subst_punct_fix (c : char) :
  punct_key c = false -> subst_punct PUNCT_MAP c = c.
Proof.
  unfold punct_key, subst_punct, PUNCT_MAP. simpl.
  intros H. repeat (apply orb_false_elim in H; destruct H as [? H]).
  repeat match goal with
         | H : (c =? _) = false |- _ => rewrite H; clear H
         end.
  reflexivity.
Qed.

(** ** Stripping *)

Lemma is_space_NL : is_space NL = true.
Proof. reflexivity. Qed.

Lemma lstrip_app_single (l : str) (c : char) :
  lstrip (l ++ [c]) =
  match lstrip l with
  | [] => if is_space c then [] else [c]
  | r => r ++ [c]
  end.
Proof.
  induction l as [|a l IH]; simpl; [now destruct (is_space c)|].
  destruct (is_space a); [exact IH|reflexivity].
Qed.

(** [rstrip] unfolds from the left. *)
Lemma rstrip_cons (c : char) (s : str) :
  rstrip (c :: s) =
  match rstrip s with
  | [] => if is_space c then [] else [c]
  | r => c :: r
  end.
Proof.
  unfold rstrip. simpl rev. rewrite lstrip_app_single.
  destruct (lstrip (rev s)) as [|a r]; [now destruct (is_space c)|].
  rewrite rev_app_distr. change (rev [c]) with [c].
  remember (rev (a :: r)) as q eqn:E.
  destruct q; [|reflexivity].
  apply (f_equal (@List.length _)) in E. rewrite length_rev in E. discriminate.
Qed.

Lemma rstrip_nil : rstrip [] = [].
Proof. reflexivity. Qed.

Lemma lstrip_Forall (P : char -> Prop) (s : str) :
  Forall P s -> Forall P (lstrip s).
Proof.
  induction 1 as [|c s Hc Hs IH]; simpl; [constructor|].
  destruct (is_space c); [assumption|now constructor].
Qed.

Lemma rstrip_Forall (P : char -> Prop) (s : str) :
  Forall P s -> Forall P (rstrip s).
Proof.
  induction 1 as [|c s Hc Hs IH]; [constructor|].
  rewrite rstrip_cons. destruct (rstrip s).
  - destruct (is_space c); now repeat constructor.
  - now constructor.
Qed.

Lemma strip_Forall (P : char -> Prop) (s : str) :
  Forall P s -> Forall P (strip s).
Proof. intros H. now apply rstrip_Forall, lstrip_Forall. Qed.

Lemma lstrip_head (s : str) :
  match lstrip s with
  | [] => True
  | c :: _ => is_space c = false
  end.
Proof.
  induction s as [|c s IH]; simpl; [exact I|].
  destruct (is_space c) eqn:E; [exact IH|exact E].
Qed.

Lemma lstrip_fix (c : char) (s : str) :
  is_space c = false -> lstrip (c :: s) = c :: s.
Proof. intros H. simpl. now rewrite H. Qed.

Lemma lstrip_rstrip (s : str) : lstrip (rstrip s) = rstrip (lstrip s).
Proof.
  induction s as [|c s IH]; [reflexivity|].
  rewrite rstrip_cons. simpl lstrip at 2.
  destruct (is_space c) eqn:E.
  - destruct (rstrip s) as [|a r] eqn:R.
    + now rewrite <- IH.
    + rewrite <- IH. simpl. now rewrite E.
  - rewrite rstrip_cons.
    destruct (rstrip s); rewrite ?E; simpl; now rewrite ?E.
Qed.

Lemma lstrip_idem (s : str) : lstrip (lstrip s) = lstrip s.
Proof.
  pose proof (lstrip_head s) as H.
  destruct (lstrip s) as [|c r]; [reflexivity|now apply lstrip_fix].
Qed.

Lemma rstrip_idem (s : str) : rstrip (rstrip s) = rstrip s.
Proof.
  unfold rstrip. now rewrite rev_involutive, lstrip_idem.
Qed.

Lemma strip_idem (s : str) : strip (strip s) = strip s.
Proof.
  unfold strip.
  now rewrite lstrip_rstrip, lstrip_idem, rstrip_idem.
Qed.

Lemma stripped_strip (s : str) : stripped (strip s).
Proof. apply strip_idem. Qed.

Lemma stripped_nil : stripped [].
Proof. reflexivity. Qed.

Lemma lstrip_length (s : str) : (List.length (lstrip s) <= List.length s)%nat.
Proof.
  induction s as [|c s IH]; simpl; [lia|].
  destruct (is_space c); simpl; lia.
Qed.

Lemma rstrip_length (s : str) : (List.length (rstrip s) <= List.length s)%nat.
Proof.
  unfold rstrip. rewrite length_rev.
  etransitivity; [apply lstrip_length|]. now rewrite length_rev.
Qed.

Lemma lstrip_same_length (s : str) :
  List.length (lstrip s) = List.length s -> lstrip s = s.
Proof.
  destruct s as [|c s]; simpl; [reflexivity|].
  destruct (is_space c); [|reflexivity].
  pose proof (lstrip_length s). simpl. lia.
Qed.

Lemma stripped_lstrip (s : str) : stripped s -> lstrip s = s.
Proof.
  unfold stripped, strip. intros H.
  apply lstrip_same_length.
  pose proof (rstrip_length (lstrip s)) as H1.
  pose proof (lstrip_length s) as H2.
  rewrite H in H1. lia.
Qed.

Lemma stripped_rstrip (s : str) : stripped s -> rstrip s = s.
Proof.
  intros H. pose proof H as H'. unfold stripped, strip in H'.
  now rewrite (stripped_lstrip s H) in H'.
Qed.

Lemma stripped_head (c : char) (s : str) :
  stripped (c :: s) -> is_space c = false.
Proof.
  intros H. apply stripped_lstrip in H.
  pose proof (lstrip_head (c :: s)) as Hh. now rewrite H in Hh.
Qed.

Lemma lstrip_app (a b : str) :
  lstrip (a ++ b) =
  match lstrip a with
  | [] => lstrip b
  | r => r ++ b
  end.
Proof.
  induction a as [|c a IH]; simpl; [reflexivity|].
  destruct (is_space c); [exact IH|reflexivity].
Qed.

Lemma rstrip_app (a b : str) :
  rstrip (a ++ b) =
  match rstrip b with
  | [] => rstrip a
  | r => a ++ r
  end.
Proof.
  induction a as [|c a IH]; simpl app.
  - now destruct (rstrip b).
  - rewrite rstrip_cons, IH.
    destruct (rstrip b) as [|x r]; [now rewrite rstrip_cons|].
    destruct (a ++ x :: r) eqn:E; [|reflexivity].
    now destruct a.
Qed.

(** ** Splitting into lines and joining back *)

Definition sep_free (sep : char) (l : str) : Prop :=
  Forall (fun c => c <> sep) l.

Lemma split_not_nil (sep : char) (s : str) : split sep s <> [].
Proof.
  destruct s as [|c s]; simpl; [discriminate|].
  destruct (c =? sep); [discriminate|].
  destruct (split sep s); discriminate.
Qed.

Lemma join_cons (sep l : str) (ls : list str) :
  ls <> [] -> join sep (l :: ls) = l ++ sep ++ join sep ls.
Proof. destruct ls; [congruence|reflexivity]. Qed.

Lemma join_split (sep : char) (s : str) : join [sep] (split sep s) = s.
Proof.
  induction s as [|c s IH]; [reflexivity|]. simpl split.
  destruct (N.eqb_spec c sep) as [->|Hc].
  - rewrite join_cons by apply split_not_nil. now rewrite IH.
  - pose proof (split_not_nil sep s) as Hn.
    destruct (split sep s) as [|l ls]; [congruence|].
    destruct ls as [|l' ls]; simpl in *; now rewrite <- IH.
Qed.

Lemma split_sep_free (sep : char) (s : str) :
  Forall (sep_free sep) (split sep s).
Proof.
  induction s as [|c s IH]; simpl; [repeat constructor|].
  destruct (N.eqb_spec c sep) as [->|Hc].
  - constructor; [constructor|exact IH].
  - destruct (split sep s) as [|l ls]; [repeat constructor; assumption|].
    inversion IH; subst. constructor; [now constructor|assumption].
Qed.

Lemma split_line_app (sep : char) (l rest : str) :
  sep_free sep l ->
  split sep (l ++ sep :: rest) = l :: split sep rest.
Proof.
  induction 1 as [|c l Hc _ IH]; simpl.
  - now rewrite N.eqb_refl.
  - apply N.eqb_neq in Hc. now rewrite Hc, IH.
Qed.

Lemma split_line (sep : char) (l : str) :
  sep_free sep l -> split sep l = [l].
Proof.
  induction 1 as [|c l Hc _ IH]; simpl; [reflexivity|].
  apply N.eqb_neq in Hc. now rewrite Hc, IH.
Qed.

Lemma split_join (sep : char) (ls : list str) :
  ls <> [] -> Forall (sep_free sep) ls -> split sep (join [sep] ls) = ls.
Proof.
  intros Hn H. induction H as [|l ls Hl Hls IH]; [congruence|].
  destruct ls as [|l' ls].
  - now apply split_line.
  - rewrite join_cons by discriminate.
    change ([sep] ++ join [sep] (l' :: ls)) with (sep :: join [sep] (l' :: ls)).
    rewrite split_line_app by assumption.
    now rewrite IH.
Qed.

Lemma split_cons_other (sep c : char) (s : str) :
  c <> sep ->
  split sep (c :: s) = (c :: hd [] (split sep s)) :: tl (split sep s).
Proof.
  intros Hc. simpl. apply N.eqb_neq in Hc. rewrite Hc.
  pose proof (split_not_nil sep s).
  now destruct (split sep s).
Qed.

Lemma join_cons_char (sep : str) (c : char) (ls : list str) :
  ls <> [] -> c :: join sep ls = join sep ((c :: hd [] ls) :: tl ls).
Proof.
  destruct ls as [|l ls]; [congruence|]. intros _.
  destruct ls; reflexivity.
Qed.

(** ** Each phase maps lines to lines *)

Lemma strip_sep_free (l : str) : sep_free NL l -> sep_free NL (strip l).
Proof. apply strip_Forall. Qed.

Lemma lstrip_lines (ls : list str) :
  Forall stripped ls -> ls <> [] ->
  exists ls', lstrip (join [NL] ls) = join [NL] ls'
              /\ ls' <> [] /\ incl ls' ls.
Proof.
  induction 1 as [|l ls Hl Hls IH]; [congruence|]. intros _.
  destruct ls as [|l2 rest].
  - exists [l]. simpl. rewrite (stripped_lstrip l Hl).
    repeat split; [discriminate|apply incl_refl].
  - destruct l as [|c l'].
    + change (join [NL] ([] :: l2 :: rest))
        with (NL :: join [NL] (l2 :: rest)).
      cbn [lstrip]. rewrite is_space_NL.
      destruct IH as (ls' & E & Hn & Hi); [discriminate|].
      exists ls'. repeat split; [assumption..|now apply incl_tl].
    + exists ((c :: l') :: l2 :: rest).
      change (join [NL] ((c :: l') :: l2 :: rest))
        with (c :: (l' ++ [NL] ++ join [NL] (l2 :: rest))).
      rewrite lstrip_fix by now apply stripped_head in Hl.
      repeat split; [discriminate|apply incl_refl].
Qed.

Lemma rstrip_lines (ls : list str) :
  Forall stripped ls -> ls <> [] ->
  exists ls', rstrip (join [NL] ls) = join [NL] ls'
              /\ ls' <> [] /\ incl ls' ls.
Proof.
  induction 1 as [|l ls Hl Hls IH]; [congruence|]. intros _.
  destruct ls as [|l2 rest].
  - exists [l]. simpl. rewrite (stripped_rstrip l Hl).
    repeat split; [discriminate|apply incl_refl].
  - destruct IH as (ls' & E & Hn & Hi); [discriminate|].
    change (join [NL] (l :: l2 :: rest))
      with (l ++ NL :: join [NL] (l2 :: rest)).
    rewrite rstrip_app, rstrip_cons, E, is_space_NL.
    destruct (join [NL] ls') as [|x r] eqn:J.
    + exists [l]. rewrite (stripped_rstrip l Hl). simpl.
      repeat split; [discriminate|].
      intros y [<-|[]]. now left.
    + exists (l :: ls'). rewrite (join_cons [NL] l ls') by assumption.
      rewrite J.
      repeat split; [discriminate|].
      intros y [<-|Hy]; [now left|right; now apply Hi].
Qed.

Lemma count_nl_first_line (c : char) (s : str) :
  (1 <= count_nl (c :: s))%nat -> c = NL.
Proof.
  simpl. destruct (N.eqb_spec c NL); [trivial|lia].
Qed.

Lemma refines_incl (ls ms : list str) :
  ls <> [] -> ms <> [] -> refines ls ms -> incl ls ms.
Proof.
  destruct ls as [|l ls], ms as [|m ms]; try congruence.
  intros _ _ [Hh Ht]. simpl in *. subst.
  intros y [<-|Hy]; [now left|right; now apply Ht].
Qed.

Lemma sub_nl3_lines (s : str) :
  forall skip, (skip <= count_nl s)%nat ->
  exists ls, sub_nl3_from skip s = join [NL] ls
             /\ ls <> [] /\ incl ls (split NL s)
             /\ (skip = O -> refines ls (split NL s)).
Proof.
  induction s as [|c s IH]; intros skip Hk.
  - exists [[]]. simpl. repeat split;
      [discriminate|apply incl_refl|apply incl_refl].
  - assert (forall ls, ls <> [] -> refines ls (split NL (c :: s)) ->
                       incl ls (split NL (c :: s))) as Hri.
    { intros ls Hn. apply refines_incl; [assumption|apply split_not_nil]. }
    destruct skip as [|k].
    + simpl sub_nl3_from. unfold match_nl3.
      destruct (3 <=? count_nl (c :: s))%nat eqn:E.
      * apply Nat.leb_le in E.
        assert (c = NL) as -> by (apply (count_nl_first_line c s); lia).
        simpl in E.
        destruct (IH (pred (count_nl (NL :: s)))) as (ls & E1 & Hn & Hi & _);
          [simpl; lia|].
        assert (refines ([] :: [] :: ls) (split NL (NL :: s))) as Hr.
        { split; [reflexivity|]. simpl.
          intros y [<-|Hy]; [|now apply Hi].
          destruct s as [|c' s]; [simpl in E; lia|].
          assert (c' = NL) as -> by (apply (count_nl_first_line c' s); lia).
          now left. }
        exists ([] :: [] :: ls). rewrite E1.
        rewrite join_cons by discriminate. rewrite join_cons by assumption.
        repeat split; [discriminate|apply Hri; [discriminate|exact Hr]|apply Hr..].
      * destruct (IH O) as (ls & E1 & Hn & Hi & Hh); [lia|].
        rewrite E1. destruct (Hh eq_refl) as [Hh1 Hh2].
        destruct (N.eqb_spec c NL) as [->|Hc].
        -- assert (refines ([] :: ls) (split NL (NL :: s))) as Hr
             by (split; [reflexivity|exact Hi]).
           exists ([] :: ls). rewrite join_cons by assumption.
           repeat split; [discriminate|apply Hri; [discriminate|exact Hr]|apply Hr..].
        -- assert (refines ((c :: hd [] ls) :: tl ls) (split NL (c :: s))) as Hr.
           { rewrite split_cons_other by assumption.
             split; simpl; [now rewrite Hh1|exact Hh2]. }
           exists ((c :: hd [] ls) :: tl ls).
           rewrite join_cons_char by assumption.
           repeat split; [discriminate|apply Hri; [discriminate|exact Hr]|apply Hr..].
    + simpl sub_nl3_from.
      assert (c = NL) as -> by (apply (count_nl_first_line c s); lia).
      simpl in Hk. 
      destruct (IH k) as (ls & E1 & Hn & Hi & _); [lia|].
      exists ls. simpl. repeat split; [assumption..| |discriminate|discriminate].
      intros y Hy. right. now apply Hi.
Qed.

(** ** Runs of newlines *)

#[local] Arguments Nat.max : simpl never.


Lemma sub_nl3_run (s : str) :
  forall skip, skip = O \/ skip = count_nl s ->
  (max_nl_run (sub_nl3_from skip s) <= 2)%nat
  /\ (count_nl (sub_nl3_from skip s) <= count_nl s - skip)%nat.
Proof.
  induction s as [|c s IH]; intros skip Hk; [simpl; lia|].
  destruct skip as [|k].
  - simpl sub_nl3_from. unfold match_nl3.
    destruct (3 <=? count_nl (c :: s))%nat eqn:E.
    + apply Nat.leb_le in E.
      assert (c = NL) as -> by (apply (count_nl_first_line c s); lia).
      simpl in E.
      destruct (IH (pred (count_nl (NL :: s)))) as [H1 H2];
        [right; reflexivity|].
      simpl pred in *. simpl. simpl in H2. lia.
    + apply Nat.leb_gt in E.
      destruct (IH O) as [H1 H2]; [now left|].
      simpl in *. destruct (c =? NL); lia.
  - destruct Hk as [Hk|Hk]; [discriminate|].
    assert (c = NL) as -> by (apply (count_nl_first_line c s); lia).
    simpl in Hk. injection Hk as Hk.
    destruct (IH k) as [H1 H2]; [now right|].
    simpl. lia.
Qed.

Lemma max_nl_run_lstrip (s : str) :
  (max_nl_run (lstrip s) <= max_nl_run s)%nat.
Proof.
  induction s as [|c s IH]; [simpl; lia|].
  cbn [lstrip]. destruct (is_space c); [|lia].
  cbn [max_nl_run]. lia.
Qed.

Lemma count_nl_rstrip (s : str) : (count_nl (rstrip s) <= count_nl s)%nat.
Proof.
  induction s as [|c s IH]; [simpl; lia|].
  rewrite rstrip_cons. destruct (rstrip s) as [|x r].
  - destruct (is_space c) eqn:E; [simpl; lia|].
    simpl. destruct (N.eqb_spec c NL) as [->|_]; [discriminate|lia].
  - simpl in *. destruct (c =? NL); lia.
Qed.

Lemma max_nl_run_rstrip (s : str) :
  (max_nl_run (rstrip s) <= max_nl_run s)%nat.
Proof.
  induction s as [|c s IH]; [simpl; lia|].
  pose proof (count_nl_rstrip (c :: s)) as Hc.
  rewrite rstrip_cons in *. destruct (rstrip s) as [|x r].
  - destruct (is_space c); cbn [max_nl_run] in *; lia.
  - cbn [max_nl_run] in *. lia.
Qed.

Lemma max_nl_run_strip (s : str) :
  (max_nl_run (strip s) <= max_nl_run s)%nat.
Proof.
  unfold strip. etransitivity; [apply max_nl_run_rstrip|apply max_nl_run_lstrip].
Qed.

Lemma sub_nl3_fix (s : str) : (max_nl_run s <= 2)%nat -> sub_nl3 s = s.
Proof.
  unfold sub_nl3. induction s as [|c s IH]; intros H; [reflexivity|].
  simpl sub_nl3_from. unfold match_nl3.
  cbn [max_nl_run] in H.
  destruct (3 <=? count_nl (c :: s))%nat eqn:E;
    [apply Nat.leb_le in E; lia|].
  rewrite IH by lia. reflexivity.
Qed.



(** ** The normaliser *)

Lemma plain_NL : plain NL.
Proof. split; [reflexivity|discriminate]. Qed.

Lemma replace_punct_no_key (s : str) :
  Forall (fun c => punct_key c = false) (replace_punct s).
Proof.
  rewrite replace_punct_map. apply Forall_forall.
  intros c Hc. apply in_map_iff in Hc as (x & <- & _).
  apply subst_punct_not_key.
Qed.

Lemma unify_newlines_plain (s : str) :
  Forall (fun c => punct_key c = false) s ->
  Forall plain (unify_newlines s).
Proof.
  intros H. unfold unify_newlines.
  assert (Forall (fun c => punct_key c = false)
                 (replace [CR; NL] [NL] s)) as H1.
  { apply replace_from_Forall; [now repeat constructor|assumption]. }
  rewrite replace_single.
  apply Forall_forall. intros c Hc.
  apply in_map_iff in Hc as (x & <- & Hx).
  rewrite Forall_forall in H1. specialize (H1 x Hx).
  destruct (N.eqb_spec x CR) as [->|Hne]; [apply plain_NL|now split].
Qed.

Lemma join_Forall (P : char -> Prop) (sep : str) (ls : list str) :
  Forall P sep -> Forall (Forall P) ls -> Forall P (join sep ls).
Proof.
  intros Hs. induction 1 as [|l ls Hl Hls IH]; [constructor|].
  destruct ls as [|l' ls]; [assumption|].
  rewrite join_cons by discriminate.
  apply Forall_app; split; [assumption|].
  apply Forall_app; split; assumption.
Qed.

Lemma split_Forall (P : char -> Prop) (sep : char) (s : str) :
  Forall P s -> Forall (Forall P) (split sep s).
Proof.
  induction 1 as [|c s Hc Hs IH]; simpl; [repeat constructor|].
  destruct (c =? sep); [now repeat constructor|].
  destruct (split sep s) as [|l ls]; [now repeat constructor|].
  inversion IH; subst. constructor; [now constructor|assumption].
Qed.

Lemma strip_lines_Forall (P : char -> Prop) (s : str) :
  P NL -> Forall P s -> Forall P (strip_lines s).
Proof.
  intros Hn H. unfold strip_lines.
  apply join_Forall; [now repeat constructor|].
  apply Forall_map, Forall_impl with (P := Forall P);
    [apply strip_Forall|now apply split_Forall].
Qed.

Lemma sub_nl3_Forall (P : char -> Prop) (s : str) :
  P NL -> Forall P s -> forall skip, Forall P (sub_nl3_from skip s).
Proof.
  intros Hn. induction 1 as [|c s Hc Hs IH]; intros skip; simpl; [constructor|].
  destruct skip; [|apply IH].
  destruct (match_nl3 (c :: s)); repeat constructor; auto.
Qed.

Lemma normalize_str_plain (s : str) : Forall plain (normalize_str s).
Proof.
  unfold normalize_str.
  apply strip_Forall, sub_nl3_Forall; [apply plain_NL|].
  apply strip_lines_Forall; [apply plain_NL|].
  apply unify_newlines_plain, replace_punct_no_key.
Qed.

Lemma replace_punct_fix (s : str) : Forall plain s -> replace_punct s = s.
Proof.
  intros H. rewrite replace_punct_map.
  induction H as [|c s [Hc _] _ IH]; cbn [map]; [reflexivity|].
  now rewrite subst_punct_fix, IH.
Qed.

Lemma unify_newlines_fix (s : str) : Forall plain s -> unify_newlines s = s.
Proof.
  intros H. unfold unify_newlines.
  assert (Forall (fun c => c <> CR) s) as H1
    by (eapply Forall_impl; [|exact H]; now intros c [_ Hc]).
  rewrite (replace_absent CR [NL] [NL] s H1).
  exact (replace_absent CR [] [NL] s H1).
Qed.

(** The lines of a normalised string are stripped lines. *)
Lemma normalize_str_lines (s : str) :
  exists ls, normalize_str s = join [NL] ls /\ ls <> []
             /\ Forall stripped ls /\ Forall (sep_free NL) ls.
Proof.
  unfold normalize_str, strip_lines.
  set (ls0 := map strip (split NL (unify_newlines (replace_punct s)))).
  assert (ls0 <> []) as Hn0.
  { unfold ls0. intros E. apply map_eq_nil in E.
    now apply split_not_nil in E. }
  assert (Forall stripped ls0) as Hs0.
  { unfold ls0. apply Forall_map, Forall_forall. intros l _.
    apply stripped_strip. }
  assert (Forall (sep_free NL) ls0) as Hf0.
  { unfold ls0. apply Forall_map.
    eapply Forall_impl; [|apply split_sep_free]. apply strip_sep_free. }
  destruct (sub_nl3_lines (join [NL] ls0) O) as (ls1 & E1 & Hn1 & Hi1 & _);
    [lia|].
  rewrite split_join in Hi1 by assumption.
  unfold sub_nl3. rewrite E1.
  assert (forall P : str -> Prop, forall a b : list str,
             incl a b -> Forall P b -> Forall P a) as Hincl.
  { intros P a b Hi Hb. apply Forall_forall. intros x Hx.
    rewrite Forall_forall in Hb. now apply Hb, Hi. }
  assert (Forall stripped ls1) as Hs1 by (eapply Hincl; eassumption).
  destruct (lstrip_lines ls1 Hs1 Hn1) as (ls2 & E2 & Hn2 & Hi2).
  assert (Forall stripped ls2) as Hs2 by (eapply Hincl; eassumption).
  destruct (rstrip_lines ls2 Hs2 Hn2) as (ls3 & E3 & Hn3 & Hi3).
  exists ls3. unfold strip. rewrite E2, E3.
  repeat split; [assumption|eapply Hincl; eassumption|].
  eapply Hincl; [exact Hi3|]. eapply Hincl; [exact Hi2|].
  eapply Hincl; eassumption.
Qed.

Lemma strip_lines_fix (ls : list str) :
  ls <> [] -> Forall stripped ls -> Forall (sep_free NL) ls ->
  strip_lines (join [NL] ls) = join [NL] ls.
Proof.
  intros Hn Hs Hf. unfold strip_lines. rewrite split_join by assumption.
  f_equal. induction Hs as [|l ls Hl _ IH]; [reflexivity|].
  simpl. rewrite Hl. f_equal.
  destruct ls as [|l' ls]; [reflexivity|].
  inversion Hf; subst. apply IH; [discriminate|assumption].
Qed.

Lemma normalize_str_run (s : str) : (max_nl_run (normalize_str s) <= 2)%nat.
Proof.
  unfold normalize_str. etransitivity; [apply max_nl_run_strip|].
  apply (sub_nl3_run _ O). now left.
Qed.

Lemma normalize_str_idem (s : str) :
  normalize_str (normalize_str s) = normalize_str s.
Proof.
  destruct (normalize_str_lines s) as (ls & E & Hn & Hs & Hf).
  pose proof (normalize_str_plain s) as Hp.
  pose proof (normalize_str_run s) as Hr.
  assert (stripped (normalize_str s)) as Hst by apply stripped_strip.
  unfold normalize_str at 1.
  rewrite replace_punct_fix, unify_newlines_fix by assumption.
  rewrite E, strip_lines_fix by assumption. rewrite <- E.
  rewrite sub_nl3_fix by assumption. exact Hst.
Qed.

(** ** The substitution through the pattern engine is the counting scan *)

Lemma count_nl_le_length (s : str) : (count_nl s <= List.length s)%nat.
Proof.
  induction s as [|c s IH]; simpl; [lia|]. destruct (c =? NL); lia.
Qed.

Lemma star_loop_newlines {A} (k : str -> str -> Re.groups -> option A) :
  (forall p r g, k p r g <> None) ->
  forall n pre rest g,
    (count_nl rest < n)%nat ->
    Re.star_loop (Re.run NEWLINE) n pre rest g k
    = k (rev (firstn (count_nl rest) rest) ++ pre)
        (skipn (count_nl rest) rest) g.
Proof.
  intros Hk. induction n as [|n IH]; intros pre rest g Hn; [lia|].
  cbn [Re.star_loop]. destruct rest as [|c rest]; [reflexivity|].
  unfold NEWLINE at 1. cbn [Re.run]. simpl count_nl in *.
  destruct (c =? NL) eqn:E; [|reflexivity].
  replace (List.length rest <? List.length (c :: rest))%nat with true
    by (symmetry; apply Nat.ltb_lt; simpl; lia).
  rewrite IH by lia.
  cbn [firstn skipn rev]. rewrite <- app_assoc. cbn [app].
  destruct (k _ _ g) eqn:F; [reflexivity|now apply Hk in F].
Qed.

Lemma match_at_newlines3 (pre rest : str) :
  Re.match_at NEWLINES3 pre rest
  = match match_nl3 rest with
    | Some k => Some {| Re.m_start := List.length pre;
                        Re.m_end := List.length pre + k;
                        Re.m_groups := [] |}
    | None => None
    end.
Proof.
  unfold Re.match_at, NEWLINES3, match_nl3.
  destruct rest as [|c1 rest]; [reflexivity|].
  unfold NEWLINE at 1. cbn [Re.run]. simpl count_nl.
  destruct (c1 =? NL); [|reflexivity].
  destruct rest as [|c2 rest]; [reflexivity|].
  unfold NEWLINE at 1. cbn [Re.run]. simpl count_nl.
  destruct (c2 =? NL); [|reflexivity].
  destruct rest as [|c3 rest]; [reflexivity|].
  unfold NEWLINE at 1. cbn [Re.run]. simpl count_nl.
  destruct (c3 =? NL); [|reflexivity].
  rewrite star_loop_newlines;
    [|discriminate|pose proof (count_nl_le_length rest); lia].
  cbn [Nat.leb]. do 3 f_equal.
  rewrite length_app, length_rev, length_firstn.
  pose proof (count_nl_le_length rest). simpl. lia.
Qed.

Lemma re_sub_nl3_from (rest : str) :
  forall skip pre,
    Re.sub_from NEWLINES3 [NL; NL] skip pre rest = sub_nl3_from skip rest.
Proof.
  induction rest as [|c rest IH]; intros skip pre; [reflexivity|].
  cbn [Re.sub_from sub_nl3_from]. destruct skip as [|k]; [|apply IH].
  rewrite match_at_newlines3.
  destruct (match_nl3 (c :: rest)) as [k|]; cbn [Re.m_end Re.m_start].
  - rewrite Nat.add_comm, Nat.add_sub, IH. reflexivity.
  - now rewrite IH.
Qed.

Lemma re_sub_nl3 (s : str) : Re.sub NEWLINES3 [NL; NL] s = sub_nl3 s.
Proof. apply re_sub_nl3_from. Qed.

Lemma normalize_some (s : str) : normalize (Some s) = Some (normalize_str s).
Proof. unfold normalize, normalize_str. now rewrite re_sub_nl3. Qed.

Lemma normalize_preserve_newlines_some (s : str) :
  normalize_preserve_newlines (Some s) = Some (normalize_str s).
Proof.
  unfold normalize_preserve_newlines, normalize_str. now rewrite re_sub_nl3.
Qed.

(** ** Idempotence *)

(** C2. The normaliser is idempotent, and an absent input gives an absent
    output; this holds for [normalize] of get_nkb_24.py and for
    [normalize_preserve_newlines] of kjpkjnkb.py. *)
Theorem normalize_idempotent :
  (forall x, normalize (normalize x) = normalize x)
  /\ normalize None = None
  /\ (forall x, normalize_preserve_newlines
                  (normalize_preserve_newlines x)
                = normalize_preserve_newlines x)
  /\ normalize_preserve_newlines None = None.
Proof.
  repeat split; try reflexivity; intros [s|]; try reflexivity.
  - now rewrite !normalize_some, normalize_str_idem.
  - now rewrite !normalize_preserve_newlines_some, normalize_str_idem.
Qed.

(** ** Blank lines between two normalised texts *)














Example normalize_blank_lines :
  normalize (Some (lit "a" ++ [NL; 32; NL; 9; NL; NL; NL] ++ lit "b" ++ [NL; NL; NL]))
  = Some (lit "a" ++ [NL; NL] ++ lit "b").
Proof. vm_compute. reflexivity. Qed.




(** ** The title parser on sample headings *)

Example split_title_dash :
  GetNkb24.split_title (lit "KJ 024 " ++ [EN_DASH] ++ lit " Tuhan Kasihanilah Kami")
  = (Some (lit "KJ"), Some 24%Z, Some (lit "Tuhan Kasihanilah Kami")).
Proof. vm_compute. reflexivity. Qed.

Example split_title_untitled :
  GetNkb24.split_title (lit "Random Untitled Song")
  = (None, None, Some (lit "Random Untitled Song")).
Proof. vm_compute. reflexivity. Qed.

Example split_title_fuzzy :
  GetNkb24.split_title (lit "Lagu nkb 007- Kasih")
  = (Some (lit "NKB"), Some 7%Z, Some (lit "Kasih")).
Proof. vm_compute. reflexivity. Qed.

Example split_title_kj_dash :
  Kjpkjnkb.split_title (lit "pkj 002 - Mari Kita")
  = (Some (lit "PKJ"), Some 2%Z, Some (lit "Mari Kita")).
Proof. vm_compute. reflexivity. Qed.

(** C5. On the heading "NKB 024, Tuhan Kasihanilah Kami" the strict pattern
    of get_nkb_24.py matches and [split_title] returns ("NKB", 24, "Tuhan
    Kasihanilah Kami"); the pattern of kjpkjnkb.py takes dashes only, does not
    match, and its [split_title] returns the whole heading as the title with
    no songbook and no number. *)
Theorem split_title_comma :
  let heading := lit "NKB 024, Tuhan Kasihanilah Kami" in
  Re.match_ GetNkb24.TITLE_RE_STRICT heading <> None
  /\ GetNkb24.split_title heading
     = (Some (lit "NKB"), Some 24%Z, Some (lit "Tuhan Kasihanilah Kami"))
  /\ Re.match_ Kjpkjnkb.TITLE_RE heading = None
  /\ Kjpkjnkb.split_title heading = (None, None, Some heading).
Proof.
  repeat split; try (vm_compute; reflexivity).
  vm_compute. discriminate.
Qed.

(** ** The resolver *)

Ltac run_resolver :=
  cbv beta delta [GetNkb24.fetch_lyrics_from_alkitab GetNkb24.try_base
                  GetNkb24.try_a GetNkb24.except_base GetNkb24.except_a
                  Kjpkjnkb.fetch_lyrics_from_alkitab Kjpkjnkb.try_base
                  Kjpkjnkb.try_a Kjpkjnkb.except_base Kjpkjnkb.except_a
                  bind ret raise try_except fetch_html when warns_append
                  get_warns new_warns];
  cbn beta iota zeta.

Ltac split_cases :=
  repeat match goal with
         | |- context [match ?x with _ => _ end] =>
             lazymatch x with
             | context [match _ with _ => _ end] => fail
             | _ => destruct x eqn:?
             end;
             cbn beta iota zeta
         end.







Ltac leaf_inv :=
  let H := fresh "H" in
  intros H; injection H as ? ? ? ?; subst;
  cbn [log warns app] in *;
  try discriminate;
  try match goal with
      | H1 : ?p = None, H2 : no_blocks ?p = false |- _ =>
          rewrite H1 in H2; discriminate H2
      end.

(** C9. Whenever the resolver of either script returns absent lyric blocks,
    the warning list it returns is not empty. *)
Theorem absent_blocks_have_warning BeautifulSoup s buku no_lagu st
        blocks url ws st' :
  Kjpkjnkb.fetch_lyrics_from_alkitab BeautifulSoup s buku no_lagu st
    = (inr (blocks, url, ws), st')
  \/ GetNkb24.fetch_lyrics_from_alkitab BeautifulSoup s buku no_lagu st
     = (inr (blocks, url, ws), st') ->
  blocks = None ->
  ws <> [].
Proof.
  intros [H|H] Hb; revert H; run_resolver;
    destruct (s (build_alkitab_url buku no_lagu)); cbn beta iota zeta;
    destruct (s (build_alkitab_url buku no_lagu ++ lit "A"));
    cbn beta iota zeta; split_cases; leaf_inv.
Qed.


Lemma kj_own_exception_marked :
  contains (lit "no such song") (lower (lit "no such song (base)")) = true.
Proof. vm_compute. reflexivity. Qed.

Lemma nkb_own_exception_marked :
  contains (lit "no such song") (lower (lit "no such song")) = true.
Proof. vm_compute. reflexivity. Qed.

Lemma no_blocks_all_empty (p : option (list block)) :
  p = None \/ (exists l, p = Some l /\ all_parts_empty l = true) ->
  no_blocks p = true \/ (no_blocks p = false /\ all_parts_empty (or_nil p) = true).
Proof.
  intros [->|(l & -> & H)]; [now left|].
  destruct l; [now left|right; now split].
Qed.

(** C6. When the base request succeeds, the page does not carry the "no such
    song" marker, and parsing gives nothing or only blocks without parts, the
    resolver of either script records one warning and returns that parse
    result with the base URL; the base URL is the only request it makes. *)
Theorem base_result_is_kept BeautifulSoup s buku no_lagu st html :
  let url_base := build_alkitab_url buku no_lagu in
  let parsed := parse_alkitab_page BeautifulSoup html in
  s url_base = inr html ->
  page_says_no_such_song html = false ->
  parsed = None \/ (exists l, parsed = Some l /\ all_parts_empty l = true) ->
  exists w w',
    Kjpkjnkb.fetch_lyrics_from_alkitab BeautifulSoup s buku no_lagu st
    = (inr (parsed, url_base, [w]),
       {| log := log st ++ [url_base]; warns := [w] |})
    /\ GetNkb24.fetch_lyrics_from_alkitab BeautifulSoup s buku no_lagu st
       = (inr (parsed, url_base, [w']),
          {| log := log st ++ [url_base]; warns := [w'] |}).
Proof.
  intros url_base parsed Hs Hm Hp.
  apply no_blocks_all_empty in Hp.
  run_resolver. fold url_base. rewrite Hs, Hm. cbn beta iota zeta.
  fold parsed.
  destruct Hp as [Hp|[Hp Hq]]; rewrite Hp; cbn beta iota zeta;
    rewrite ?Hq; cbn beta iota zeta; do 2 eexists; split; reflexivity.
Qed.

(** C7. When the base page carries the "no such song" marker and the 'A' URL
    gives a page that parses into valid blocks, the resolver of either script
    returns those blocks, the 'A' URL, and the two warnings "no such song"
    and "used 'A' suffix fallback", in that order. *)
Theorem fallback_blocks_and_warnings BeautifulSoup s buku no_lagu st
        html html_a l :
  let url_base := build_alkitab_url buku no_lagu in
  let url_a := url_base ++ lit "A" in
  s url_base = inr html ->
  page_says_no_such_song html = true ->
  s url_a = inr html_a ->
  page_says_no_such_song html_a = false ->
  parse_alkitab_page BeautifulSoup html_a = Some l ->
  valid_blocks l = true ->
  fst (Kjpkjnkb.fetch_lyrics_from_alkitab BeautifulSoup s buku no_lagu st)
  = inr (Some l, url_a,
         [ lit "alkitab.app responded 'no such song' (base); retry with 'A' suffix.";
           lit "used 'A' suffix fallback." ])
  /\ fst (GetNkb24.fetch_lyrics_from_alkitab BeautifulSoup s buku no_lagu st)
     = inr (Some l, url_a,
            [ lit "alkitab.app says 'no such song' (base); will try 'A'.";
              lit "used 'A' suffix fallback." ]).
Proof.
  intros url_base url_a Hs Hm Ha Hma Hp Hv.
  apply andb_prop in Hv as [Hv1 Hv2].
  apply negb_true_iff in Hv1, Hv2.
  run_resolver. fold url_base. fold url_a.
  rewrite Hs, Hm. cbn beta iota zeta.
  rewrite kj_own_exception_marked, nkb_own_exception_marked.
  cbn beta iota zeta.
  rewrite Ha, Hma. cbn beta iota zeta.
  rewrite Hp, Hv1. cbn beta iota zeta. cbn [or_nil].
  rewrite Hv2. cbn beta iota zeta.
  split; reflexivity.
Qed.


(** ** The lyrics page parser *)

Lemma filter_nil_iff {A} (f : A -> bool) (l : list A) :
  filter f l = [] <-> forall x, In x l -> f x = false.
Proof.
  induction l as [|a l IH]; simpl; [now split|].
  destruct (f a) eqn:E; split.
  - discriminate.
  - intros H. specialize (H a (or_introl eq_refl)). congruence.
  - intros H x [<-|Hx]; [assumption|now apply IH].
  - intros H. apply IH. intros x Hx. apply H. now right.
Qed.

Example parse_sample_lyrics :
  parse_alkitab_page sample_soup lyrics_page
  = Some [ {| lirik_no := Some (lit "1");
              parts := [ {| p_type := bait; p_no := Some (lit "1");
                            p_text := Some (lit "Tuhan, kasihanilah" ++ [NL] ++ lit "kami") |};
                         {| p_type := reff; p_no := None;
                            p_text := Some (lit "Kasihanilah kami") |};
                         {| p_type := bait; p_no := Some (lit "2");
                            p_text := Some (lit "Kristus, kasihanilah") |} ] |} ].
Proof. vm_compute. reflexivity. Qed.

Example parse_sample_hollow :
  parse_alkitab_page sample_soup hollow_page = Some [].
Proof. vm_compute. reflexivity. Qed.

Example parse_sample_blank :
  parse_alkitab_page sample_soup blank_page = None.
Proof. vm_compute. reflexivity. Qed.

(** C4. For every page, [parse_alkitab_page] returns [None] exactly when no
    element of the page matches "div.lagu", and returns the empty list exactly
    when the first such element holds no "div.lirik"; the two outcomes are
    different values. *)
Theorem parse_absent_versus_empty BeautifulSoup html :
  let soup := BeautifulSoup html in
  let container := tag_class "div" "lagu" in
  let grouping := tag_class "div" "lirik" in
  (parse_alkitab_page BeautifulSoup html = None
   <-> forall n, In n (Html.descendants soup) ->
                 Html.matches container n = false)
  /\ (parse_alkitab_page BeautifulSoup html = Some []
      <-> exists lagu, Html.select_one container soup = Some lagu
                       /\ forall n, In n (Html.descendants lagu) ->
                                    Html.matches grouping n = false)
  /\ @None (list block) <> Some [].
Proof.
  intros soup container grouping. unfold parse_alkitab_page.
  fold soup. fold container. fold grouping.
  unfold Html.select_one, Html.select.
  repeat split.
  - destruct (filter _ (Html.descendants soup)) eqn:E; [|discriminate].
    intros _. now apply filter_nil_iff.
  - intros H. apply filter_nil_iff in H. now rewrite H.
  - destruct (filter _ (Html.descendants soup)) as [|lagu rest];
      [discriminate|].
    simpl. intros H. injection H as H. apply map_eq_nil in H.
    exists lagu. split; [reflexivity|]. now apply filter_nil_iff.
  - intros (lagu & E & H).
    destruct (filter _ (Html.descendants soup)) as [|x rest];
      [discriminate|].
    simpl in E. injection E as ->.
    simpl. apply filter_nil_iff in H. now rewrite H.
  - discriminate.
Qed.


(** ** Rows and the store *)

Lemma eqb_eq (a b : str) : Py.eqb a b = true <-> a = b.
Proof.
  revert b. induction a as [|x a IH]; intros [|y b]; simpl;
    try (split; [discriminate|discriminate]); [now split|].
  rewrite andb_true_iff, N.eqb_eq, IH.
  split; [intros [-> ->]; reflexivity|intros H; injection H; auto].
Qed.

Lemma eqb_refl (a : str) : Py.eqb a a = true.
Proof. now apply eqb_eq. Qed.

Lemma dumps_array (items : list Json.value) :
  Json.dumps (Json.Array items)
  = lit "[" ++ join (lit ", ") (map Json.dumps items) ++ lit "]".
Proof. reflexivity. Qed.

Example dumps_sample :
  dumps_lirik (Some [ {| lirik_no := None;
                         parts := [ {| p_type := reff; p_no := None;
                                       p_text := Some (lit "a" ++ [NL] ++ lit "b") |} ] |} ])
  = lit "[{" ++ [34] ++ lit "lirik_no" ++ [34] ++ lit ": null, "
    ++ [34] ++ lit "parts" ++ [34] ++ lit ": [{"
    ++ [34] ++ lit "type" ++ [34] ++ lit ": " ++ [34] ++ lit "reff" ++ [34] ++ lit ", "
    ++ [34] ++ lit "no" ++ [34] ++ lit ": null, "
    ++ [34] ++ lit "text" ++ [34] ++ lit ": " ++ [34] ++ lit "a\nb" ++ [34]
    ++ lit "}]}]".
Proof. vm_compute. reflexivity. Qed.

(** C10. The row either script builds always carries [lirik_json] as a
    string, never NULL, and that string is a JSON array: "[", the blocks'
    encodings separated by ", ", and "]".  When lyric resolution returned
    nothing, or no block, it is exactly "[]".  The NOT NULL constraint on
    the column is therefore never the one that fails. *)
Theorem lirik_json_is_an_array now m source_url lirik_list lyrics_url ws :
  let built := Kjpkjnkb.to_db_row now m source_url lirik_list lyrics_url ws in
  let built' := GetNkb24.main_row now m lirik_list lyrics_url ws in
  let encoded :=
    lit "[" ++ join (lit ", ") (map Json.dumps (map block_json (or_nil lirik_list)))
            ++ lit "]" in
  lirik_json built = Some encoded
  /\ lirik_json built' = Some encoded
  /\ lirik_json (Kjpkjnkb.to_db_row now m source_url None lyrics_url ws)
     = Some (lit "[]")
  /\ lirik_json (GetNkb24.main_row now m None lyrics_url ws) = Some (lit "[]")
  /\ lirik_json (Kjpkjnkb.to_db_row now m source_url (Some []) lyrics_url ws)
     = Some (lit "[]")
  /\ not_null_violation built <> Some "lirik_json"%string
  /\ not_null_violation built' <> Some "lirik_json"%string.
Proof.
  cbn zeta. repeat split; try reflexivity.
  - unfold not_null_violation. simpl.
    destruct (meta_buku m), (meta_no_lagu m), (meta_judul_text m);
      simpl; discriminate.
  - unfold not_null_violation. simpl.
    destruct (meta_buku m), (meta_no_lagu m), (meta_judul_text m);
      simpl; discriminate.
Qed.

Lemma select_app (d1 d2 : list stored) (q : Z) (b : str) (n : Z) :
  select_hymn {| hymns := d1 ++ d2; sqlite_sequence := q |} b n
  = select_hymn {| hymns := d1; sqlite_sequence := q |} b n
    ++ select_hymn {| hymns := d2; sqlite_sequence := q |} b n.
Proof. unfold select_hymn. simpl. now rewrite filter_app, map_app. Qed.

(** Whether a stored row answers the query for [(b, n)]. *)
Lemma same_key_select (r : row) (b : str) (n : Z) (s : stored) :
  buku r = Some b -> no_lagu r = Some n ->
  same_key (cols s) r = has_key b n s.
Proof.
  intros Hb Hn. unfold same_key, has_key. rewrite Hb, Hn.
  destruct (buku (cols s)), (no_lagu (cols s)); reflexivity.
Qed.

Lemma same_key_has_key (r : row) (s : stored) :
  same_key (cols s) r = true ->
  exists x m, buku r = Some x /\ no_lagu r = Some m /\ has_key x m s = true.
Proof.
  unfold same_key, has_key.
  destruct (buku (cols s)) as [x|], (buku r) as [y|]; try discriminate.
  destruct (no_lagu (cols s)) as [m|], (no_lagu r) as [p|]; try discriminate.
  intros H. exists y, p. now repeat split.
Qed.

Lemma has_key_inj (b b' : str) (n n' : Z) (s : stored) :
  has_key b n s = true -> has_key b' n' s = true -> b = b' /\ n = n'.
Proof.
  unfold has_key.
  destruct (buku (cols s)) as [x|]; [|discriminate].
  destruct (no_lagu (cols s)) as [m|]; [|discriminate].
  intros H H'. apply andb_prop in H as [H1 H2], H' as [H1' H2'].
  apply eqb_eq in H1, H1'. apply Z.eqb_eq in H2, H2'. now subst.
Qed.

Lemma do_update_cols (s : stored) (r : row) :
  same_key (cols s) r = true -> cols (do_update s r) = r.
Proof.
  unfold same_key, do_update. destruct r as [b n ? ? ? ? ? ? ? ? ?]. simpl.
  destruct (buku (cols s)) as [x|], b as [y|]; try discriminate.
  destruct (no_lagu (cols s)) as [p|], n as [q|]; try discriminate.
  intros H. apply andb_prop in H as [H1 H2].
  apply eqb_eq in H1. apply Z.eqb_eq in H2. now subst.
Qed.

Lemma has_key_update (b : str) (n : Z) (r : row) (s : stored) :
  has_key b n (if same_key (cols s) r then do_update s r else s)
  = has_key b n s.
Proof. now destruct (same_key (cols s) r). Qed.

Lemma filter_map_inv {A} (p : A -> bool) (f : A -> A) (l : list A) :
  (forall x, p (f x) = p x) -> filter p (map f l) = map f (filter p l).
Proof.
  intros H. induction l as [|a l IH]; [reflexivity|]. simpl.
  rewrite H. destruct (p a); simpl; now rewrite IH.
Qed.

Lemma select_after_update (rows : list stored) (q q' : Z) (r : row)
      (b : str) (n : Z) :
  buku r = Some b -> no_lagu r = Some n ->
  select_hymn {| hymns := map (fun s => if same_key (cols s) r
                                        then do_update s r else s) rows;
                 sqlite_sequence := q |} b n
  = map (fun _ => r) (select_hymn {| hymns := rows; sqlite_sequence := q' |} b n).
Proof.
  intros Hb Hn. unfold select_hymn. cbn [hymns].
  rewrite filter_map_inv by (intros; apply has_key_update).
  rewrite !map_map. apply map_ext_in. intros s Hs.
  apply filter_In in Hs as [_ Hk].
  rewrite (same_key_select r b n s Hb Hn), Hk.
  apply do_update_cols. now rewrite (same_key_select r b n s Hb Hn).
Qed.

Lemma select_other_key (rows : list stored) (q q' : Z) (r : row)
      (b : str) (n : Z) :
  (forall x m, buku r = Some x -> no_lagu r = Some m -> (x, m) <> (b, n)) ->
  select_hymn {| hymns := map (fun s => if same_key (cols s) r
                                        then do_update s r else s) rows;
                 sqlite_sequence := q |} b n
  = select_hymn {| hymns := rows; sqlite_sequence := q' |} b n.
Proof.
  intros Hne. unfold select_hymn. cbn [hymns].
  rewrite filter_map_inv by (intros; apply has_key_update).
  rewrite map_map. apply map_ext_in. intros s Hs.
  apply filter_In in Hs as [_ Hk].
  destruct (same_key (cols s) r) eqn:E; [|reflexivity].
  apply same_key_has_key in E as (x & m & Hx & Hm & Hxm).
  destruct (has_key_inj _ _ _ _ _ Hxm Hk) as [-> ->].
  now elim (Hne b n Hx Hm).
Qed.

Lemma select_absent (rows : list stored) (q : Z) (r : row) (b : str) (n : Z) :
  buku r = Some b -> no_lagu r = Some n ->
  existsb (fun s => same_key (cols s) r) rows = false ->
  select_hymn {| hymns := rows; sqlite_sequence := q |} b n = [].
Proof.
  intros Hb Hn H. unfold select_hymn. cbn [hymns].
  induction rows as [|s rows IH]; [reflexivity|]. cbn [existsb filter] in *.
  apply orb_false_elim in H as [H1 H2].
  rewrite <- (same_key_select r b n s Hb Hn), H1. now apply IH.
Qed.

Lemma select_present (rows : list stored) (q : Z) (r : row) (b : str) (n : Z) :
  buku r = Some b -> no_lagu r = Some n ->
  existsb (fun s => same_key (cols s) r) rows = true ->
  select_hymn {| hymns := rows; sqlite_sequence := q |} b n <> [].
Proof.
  intros Hb Hn H. unfold select_hymn. cbn [hymns].
  induction rows as [|s rows IH]; [discriminate|]. cbn [existsb filter] in *.
  rewrite <- (same_key_select r b n s Hb Hn).
  destruct (same_key (cols s) r); [discriminate|now apply IH].
Qed.

Lemma select_single (r : row) (i q : Z) (b : str) (n : Z) :
  buku r = Some b -> no_lagu r = Some n ->
  select_hymn {| hymns := [{| id := i; cols := r |}]; sqlite_sequence := q |} b n
  = [r].
Proof.
  intros Hb Hn. unfold select_hymn, has_key. simpl.
  now rewrite Hb, Hn, eqb_refl, Z.eqb_refl.
Qed.

Lemma db_eta (d : db) :
  d = {| hymns := hymns d; sqlite_sequence := sqlite_sequence d |}.
Proof. now destruct d. Qed.

(** An accepted upsert leaves exactly the new record under its key. *)
Lemma upsert_accepted (d : db) (r : row) (b : str) (n : Z) :
  unique_keys d ->
  buku r = Some b -> no_lagu r = Some n ->
  not_null_violation r = None ->
  select_hymn (after_upsert d r) b n = [r].
Proof.
  intros Hu Hb Hn Hv. unfold after_upsert, upsert_hymn. rewrite Hv.
  destruct (existsb _ (hymns d)) eqn:E.
  - rewrite (select_after_update _ _ (sqlite_sequence d) r b n Hb Hn).
    rewrite <- db_eta.
    pose proof (select_present (hymns d) (sqlite_sequence d) r b n Hb Hn E) as Hp.
    rewrite <- db_eta in Hp. specialize (Hu b n).
    destruct (select_hymn d b n) as [|x [|y l]]; simpl in *;
      [congruence|reflexivity|lia].
  - rewrite select_app.
    rewrite (select_absent (hymns d) _ r b n Hb Hn E).
    now apply select_single.
Qed.

(** The UNIQUE constraint survives every call. *)
Lemma upsert_keeps_unique (d : db) (r : row) :
  unique_keys d -> unique_keys (after_upsert d r).
Proof.
  intros Hu. unfold after_upsert, upsert_hymn.
  destruct (not_null_violation r) eqn:Hv; [exact Hu|].
  assert (exists x m, buku r = Some x /\ no_lagu r = Some m) as (x & m & Hb & Hn).
  { unfold not_null_violation in Hv.
    destruct (buku r), (no_lagu r); try discriminate. eauto. }
  intros b n.
  destruct (existsb _ (hymns d)) eqn:E.
  - destruct (Py.eqb x b && (m =? n)%Z) eqn:F.
    + apply andb_prop in F as [F1 F2].
      apply eqb_eq in F1. apply Z.eqb_eq in F2. subst.
      rewrite (select_after_update _ _ (sqlite_sequence d) r b n Hb Hn).
      rewrite <- db_eta, length_map. apply Hu.
    + rewrite (select_other_key _ _ (sqlite_sequence d)).
      * rewrite <- db_eta. apply Hu.
      * intros x' m' Hx' Hm' Heq. injection Heq as -> ->.
        rewrite Hb in Hx'. rewrite Hn in Hm'.
        injection Hx' as ->. injection Hm' as ->.
        now rewrite eqb_refl, Z.eqb_refl in F.
  - rewrite select_app, length_app.
    destruct (Py.eqb x b && (m =? n)%Z) eqn:F.
    + apply andb_prop in F as [F1 F2].
      apply eqb_eq in F1. apply Z.eqb_eq in F2. subst.
      rewrite (select_absent (hymns d) _ r b n Hb Hn E).
      rewrite (select_single r _ _ b n Hb Hn). simpl. lia.
    + unfold select_hymn at 2, has_key. simpl. rewrite Hb, Hn, F. simpl.
      pose proof (Hu b n) as H. rewrite (db_eta d) in H.
      unfold select_hymn in *. simpl in *. lia.
Qed.

Lemma empty_db_unique : unique_keys empty_db.
Proof. intros b n. simpl. lia. Qed.


Example untitled_row_key_and_title :
  buku untitled_row = buku first_row
  /\ no_lagu untitled_row = no_lagu first_row
  /\ judul_text untitled_row = None.
Proof. vm_compute. repeat split. Qed.




Example upsert_keeps_rowid :
  let d := after_upsert (after_upsert empty_db first_row) second_row in
  map id (hymns d) = [1%Z] /\ sqlite_sequence d = 2%Z.
Proof. vm_compute. split; reflexivity. Qed.

(** ** Sample runs of the resolver *)

Lemma base_result_is_kept_witness :
  exists w w',
    Kjpkjnkb.fetch_lyrics_from_alkitab sample_soup blank_session (lit "NKB") 24 fresh
    = (inr (None, nkb24, [w]), {| log := [nkb24]; warns := [w] |})
    /\ GetNkb24.fetch_lyrics_from_alkitab sample_soup blank_session (lit "NKB") 24 fresh
       = (inr (None, nkb24, [w']), {| log := [nkb24]; warns := [w'] |}).
Proof.
  apply (base_result_is_kept sample_soup blank_session (lit "NKB") 24%Z fresh
                             blank_page);
    [reflexivity|vm_compute; reflexivity|left; vm_compute; reflexivity].
Defined.

Lemma fallback_blocks_and_warnings_witness :
  fst (Kjpkjnkb.fetch_lyrics_from_alkitab sample_soup fallback_session
                                          (lit "NKB") 24 fresh)
  = inr (parse_alkitab_page sample_soup lyrics_page, nkb24 ++ lit "A",
         [ lit "alkitab.app responded 'no such song' (base); retry with 'A' suffix.";
           lit "used 'A' suffix fallback." ])
  /\ fst (GetNkb24.fetch_lyrics_from_alkitab sample_soup fallback_session
                                             (lit "NKB") 24 fresh)
     = inr (parse_alkitab_page sample_soup lyrics_page, nkb24 ++ lit "A",
            [ lit "alkitab.app says 'no such song' (base); will try 'A'.";
              lit "used 'A' suffix fallback." ]).
Proof.
  pose proof (fallback_blocks_and_warnings
                sample_soup fallback_session (lit "NKB") 24%Z fresh
                missing_page lyrics_page
                (or_nil (parse_alkitab_page sample_soup lyrics_page))) as H.
  apply H; vm_compute; reflexivity.
Defined.

Lemma absent_blocks_have_warning_witness :
  [ lit "HTTP 404 at alkitab.app (base); retry with 'A' suffix.";
    lit "alkitab.app fetch failed (A variant): HTTP 404" ] <> [].
Proof.
  apply (absent_blocks_have_warning
           sample_soup down_session (lit "NKB") 24%Z fresh
           None (nkb24 ++ lit "A") _
           {| log := [nkb24; nkb24 ++ lit "A"];
              warns := [ lit "HTTP 404 at alkitab.app (base); retry with 'A' suffix.";
                         lit "alkitab.app fetch failed (A variant): HTTP 404" ] |});
    [left; vm_compute; reflexivity|reflexivity].
Defined.

Example down_session_nkb :
  fst (GetNkb24.fetch_lyrics_from_alkitab sample_soup down_session
                                          (lit "NKB") 24 fresh)
  = inr (None, nkb24 ++ lit "A",
         [ lit "HTTP ? (base)";
           lit "A-suffix fetch/parse error: 404 Client Error: Not Found" ]).
Proof. vm_compute. reflexivity. Qed.



(** ** Further properties of the pipeline *)

(** X1. The key (songbook, number) identifies at most one stored record:
    a store that satisfies the UNIQUE constraint satisfies it again after
    any call of [upsert_hymn], accepted or refused. *)
Theorem key_stays_unique (d : db) (r : row) :
  unique_keys d -> unique_keys (after_upsert d r).
Proof. intros H. now apply upsert_keeps_unique. Qed.

Lemma key_stays_unique_witness :
  unique_keys (after_upsert empty_db first_row).
Proof. apply (key_stays_unique empty_db first_row). exact empty_db_unique. Defined.

(** X2. The normalised text has no white space at either end, and neither
    has any of its lines. *)
Theorem normalize_strips_text_and_lines (s : str) :
  exists t,
    normalize (Some s) = Some t
    /\ stripped t
    /\ Forall stripped (split NL t).
Proof.
  exists (normalize_str s). split; [apply normalize_some|].
  split; [apply stripped_strip|].
  destruct (normalize_str_lines s) as (ls & E & Hn & Hs & Hf).
  rewrite E, split_join; assumption.
Qed.


(** ** The store under repeated upserts *)

Lemma same_key_refl_nonnull (r : row) :
  not_null_violation r = None -> same_key r r = true.
Proof.
  unfold not_null_violation, same_key.
  destruct (buku r), (no_lagu r); try discriminate.
  intros _. now rewrite eqb_refl, Z.eqb_refl.
Qed.

Lemma do_update_self (i : Z) (r : row) :
  do_update {| id := i; cols := r |} r = {| id := i; cols := r |}.
Proof. now destruct r. Qed.

Lemma do_update_twice (s : stored) (r : row) :
  do_update (do_update s r) r = do_update s r.
Proof. reflexivity. Qed.

Lemma existsb_false_map_id (rows : list stored) (r : row) :
  existsb (fun s => same_key (cols s) r) rows = false ->
  map (fun s => if same_key (cols s) r then do_update s r else s) rows = rows.
Proof.
  induction rows as [|s rows IH]; [reflexivity|]. cbn [existsb map].
  intros H. apply orb_false_elim in H as [H1 H2].
  now rewrite H1, IH.
Qed.

Lemma existsb_map_eq {A B} (p : B -> bool) (f : A -> B) (l : list A) :
  existsb p (map f l) = existsb (fun x => p (f x)) l.
Proof. induction l as [|a l IH]; simpl; [reflexivity|now rewrite IH]. Qed.

(** The two ways an accepted upsert changes the table. *)
Lemma upsert_hymns_case (d : db) (r : row) :
  not_null_violation r = None ->
  (existsb (fun s => same_key (cols s) r) (hymns d) = true
   /\ hymns (after_upsert d r)
      = map (fun s => if same_key (cols s) r then do_update s r else s)
            (hymns d))
  \/ (existsb (fun s => same_key (cols s) r) (hymns d) = false
      /\ hymns (after_upsert d r)
         = hymns d ++ [{| id := (sqlite_sequence d + 1)%Z; cols := r |}]).
Proof.
  intros Hv. unfold after_upsert, upsert_hymn. rewrite Hv. cbn zeta.
  destruct (existsb _ (hymns d)); [left|right]; now split.
Qed.

Lemma upsert_sequence (d : db) (r : row) :
  not_null_violation r = None ->
  sqlite_sequence (after_upsert d r) = (sqlite_sequence d + 1)%Z.
Proof.
  intros Hv. unfold after_upsert, upsert_hymn. rewrite Hv. cbn zeta.
  now destruct (existsb _ (hymns d)).
Qed.

Lemma upsert_refused (d : db) (r : row) (c : string) :
  not_null_violation r = Some c -> after_upsert d r = d.
Proof. intros Hv. unfold after_upsert, upsert_hymn. now rewrite Hv. Qed.

Lemma select_after_other_key (d : db) (r : row) (b : str) (n : Z) :
  (forall x m, buku r = Some x -> no_lagu r = Some m -> (x, m) <> (b, n)) ->
  select_hymn (after_upsert d r) b n = select_hymn d b n.
Proof.
  intros Hne. destruct (not_null_violation r) as [c|] eqn:Hv.
  - now rewrite (upsert_refused d r c Hv).
  - unfold after_upsert, upsert_hymn. rewrite Hv. cbn zeta.
    destruct (existsb _ (hymns d)) eqn:E.
    + rewrite (select_other_key _ _ (sqlite_sequence d) r b n Hne).
      now rewrite <- db_eta.
    + rewrite select_app.
      unfold select_hymn at 2. cbn [hymns filter map cols].
      assert (has_key b n {| id := (sqlite_sequence d + 1)%Z; cols := r |}
              = false) as ->.
      { unfold has_key. cbn [cols].
        destruct (buku r) as [x|] eqn:Hb; [|reflexivity].
        destruct (no_lagu r) as [m|] eqn:Hn; [|reflexivity].
        destruct (Py.eqb x b && (m =? n)%Z) eqn:F; [|reflexivity].
        apply andb_prop in F as [F1 F2].
        apply eqb_eq in F1. apply Z.eqb_eq in F2. subst.
        now elim (Hne b n eq_refl eq_refl). }
      rewrite app_nil_r. unfold select_hymn. reflexivity.
Qed.

(** Records under other keys are not touched by an upsert: what a key
    selects is the same before and after, whenever the record upserted has
    another key. *)
Theorem upsert_leaves_other_keys (d : db) (r : row) (b : str) (n : Z) :
  (forall x m, buku r = Some x -> no_lagu r = Some m -> (x, m) <> (b, n)) ->
  select_hymn (after_upsert d r) b n = select_hymn d b n.
Proof. apply select_after_other_key. Qed.

Lemma upsert_leaves_other_keys_witness :
  select_hymn (after_upsert (after_upsert empty_db first_row) second_row)
              (lit "KJ") 24
  = select_hymn (after_upsert empty_db first_row) (lit "KJ") 24.
Proof.
  apply (upsert_leaves_other_keys (after_upsert empty_db first_row) second_row
                                  (lit "KJ") 24%Z).
  intros x m Hx Hm. vm_compute in Hx, Hm.
  injection Hx as <-. injection Hm as <-. discriminate.
Defined.

(** Upserting the same record a second time changes no row. *)
Theorem upsert_twice_same_rows (d : db) (r : row) :
  hymns (after_upsert (after_upsert d r) r) = hymns (after_upsert d r).
Proof.
  destruct (not_null_violation r) as [c|] eqn:Hv.
  - now rewrite !(upsert_refused _ r c Hv).
  - pose proof (same_key_refl_nonnull r Hv) as Hrr.
    destruct (upsert_hymns_case d r Hv) as [[E H1]|[E H1]];
      destruct (upsert_hymns_case (after_upsert d r) r Hv) as [[E2 H2]|[E2 H2]].
    + rewrite H2, H1, map_map. apply map_ext. intros s.
      destruct (same_key (cols s) r) eqn:F.
      * rewrite (do_update_cols s r F), Hrr. apply do_update_twice.
      * now rewrite F.
    + exfalso. rewrite H1 in E2.
      rewrite existsb_map_eq in E2.
      apply Bool.not_true_iff_false in E2. apply E2.
      apply existsb_exists in E as (s & Hs & F).
      apply existsb_exists. exists s. split; [assumption|].
      now rewrite F, (do_update_cols s r F).
    + rewrite H2, H1, map_app. cbn [map cols].
      rewrite Hrr, do_update_self, (existsb_false_map_id _ _ E). reflexivity.
    + exfalso. rewrite H1, existsb_app in E2. cbn [existsb cols] in E2.
      rewrite Hrr in E2. cbn [orb] in E2.
      now rewrite orb_true_r in E2.
Qed.

Lemma upsert_ids_fresh (d : db) (r : row) :
  ids_fresh d ->
  ids_fresh (after_upsert d r)
  /\ firstn (List.length (hymns d)) (map id (hymns (after_upsert d r)))
     = map id (hymns d).
Proof.
  intros [Hnd Hle].
  destruct (not_null_violation r) as [c|] eqn:Hv.
  - rewrite (upsert_refused d r c Hv). repeat split; try assumption.
    rewrite <- (length_map id), firstn_all. reflexivity.
  - assert (forall rows : list stored,
               map id (map (fun s => if same_key (cols s) r
                                     then do_update s r else s) rows)
               = map id rows) as Hid.
    { intros rows. rewrite map_map. apply map_ext. intros s.
      now destruct (same_key (cols s) r). }
    unfold ids_fresh. rewrite (upsert_sequence d r Hv).
    destruct (upsert_hymns_case d r Hv) as [[E H1]|[E H1]]; rewrite H1.
    + rewrite Hid. repeat split; [assumption| |].
      * apply Forall_forall. intros s Hs.
        apply in_map_iff in Hs as (s0 & <- & Hs0).
        rewrite Forall_forall in Hle. specialize (Hle s0 Hs0).
        destruct (same_key (cols s0) r); simpl; lia.
      * rewrite <- (length_map id), firstn_all. reflexivity.
    + rewrite map_app. cbn [map id]. repeat split.
      * apply NoDup_app; [assumption|repeat constructor; simpl; tauto|].
        intros x Hx [<-|[]]. apply in_map_iff in Hx as (s0 & Hs0 & Hin).
        rewrite Forall_forall in Hle. specialize (Hle s0 Hin). lia.
      * apply Forall_app. split.
        -- eapply Forall_impl; [|exact Hle]. intros s Hs. simpl in *. lia.
        -- repeat constructor. simpl. lia.
      * rewrite <- (length_map id (hymns d)), firstn_app, firstn_all.
        rewrite Nat.sub_diag. simpl. now rewrite app_nil_r.
Qed.

(** Stored rows keep their ids and their order under [upsert_hymn], and
    ids stay distinct and at most the sequence: an upsert only rewrites
    rows in place or appends one with the next id. *)
Theorem upsert_keeps_ids (d : db) (r : row) :
  ids_fresh d ->
  ids_fresh (after_upsert d r)
  /\ firstn (List.length (hymns d)) (map id (hymns (after_upsert d r)))
     = map id (hymns d).
Proof. apply upsert_ids_fresh. Qed.

Lemma empty_db_ids_fresh : ids_fresh empty_db.
Proof. split; constructor. Qed.

Lemma upsert_keeps_ids_witness :
  ids_fresh (after_upsert empty_db first_row)
  /\ firstn (List.length (hymns empty_db))
            (map id (hymns (after_upsert empty_db first_row)))
     = map id (hymns empty_db).
Proof. apply (upsert_keeps_ids empty_db first_row). exact empty_db_ids_fresh. Defined.


(** ** The resolver seen from outside *)

Ltac leaf_requests :=
  do 4 eexists; split; [reflexivity|];
  cbn [log warns app];
  repeat split;
  try (rewrite <- app_assoc; reflexivity);
  try reflexivity;
  try (left; reflexivity);
  try (right; eexists; split; [eassumption|reflexivity]).

Lemma kj_resolves_by_requests BeautifulSoup s buku no_lagu st :
  resolves_by_requests BeautifulSoup
    (Kjpkjnkb.fetch_lyrics_from_alkitab BeautifulSoup s buku no_lagu)
    s (build_alkitab_url buku no_lagu) st.
Proof.
  unfold resolves_by_requests, second_stage.
  set (url_base := build_alkitab_url buku no_lagu).
  set (url_a := url_base ++ lit "A").
  run_resolver. fold url_base. fold url_a.
  destruct (s url_base) as [e|html] eqn:Eb; cbn beta iota zeta;
    destruct (s url_a) as [e'|html'] eqn:Ea; cbn beta iota zeta.
  all: split_cases.
  all: leaf_requests.
Qed.

Lemma nkb_resolves_by_requests BeautifulSoup s buku no_lagu st :
  resolves_by_requests BeautifulSoup
    (GetNkb24.fetch_lyrics_from_alkitab BeautifulSoup s buku no_lagu)
    s (build_alkitab_url buku no_lagu) st.
Proof.
  unfold resolves_by_requests, second_stage.
  set (url_base := build_alkitab_url buku no_lagu).
  set (url_a := url_base ++ lit "A").
  run_resolver. fold url_base. fold url_a.
  destruct (s url_base) as [e|html] eqn:Eb; cbn beta iota zeta;
    destruct (s url_a) as [e'|html'] eqn:Ea; cbn beta iota zeta.
  all: split_cases.
  all: leaf_requests.
Qed.


(** The resolver of either script makes one request or two: the base URL,
    then the 'A' variant only when the base request raised or its page
    carries the marker.  It returns the last URL it asked for, and blocks
    that are absent or the parse of the page at that URL. *)
Theorem resolver_requests BeautifulSoup s buku no_lagu st :
  resolves_by_requests BeautifulSoup
    (Kjpkjnkb.fetch_lyrics_from_alkitab BeautifulSoup s buku no_lagu)
    s (build_alkitab_url buku no_lagu) st
  /\ resolves_by_requests BeautifulSoup
       (GetNkb24.fetch_lyrics_from_alkitab BeautifulSoup s buku no_lagu)
       s (build_alkitab_url buku no_lagu) st.
Proof.
  split; [apply kj_resolves_by_requests|apply nkb_resolves_by_requests].
Qed.

Lemma valid_blocks_iff (p : option (list block)) :
  (no_blocks p = false /\ all_parts_empty (or_nil p) = false)
  <-> exists l, p = Some l /\ valid_blocks l = true.
Proof.
  unfold valid_blocks. split.
  - intros [H1 H2]. destruct p as [l|]; [|discriminate H1].
    exists l. split; [reflexivity|]. cbn [or_nil] in H2. now rewrite H1, H2.
  - intros (l & -> & H). apply andb_prop in H as [H1 H2].
    apply negb_true_iff in H1, H2. now split.
Qed.

Ltac leaf_clean :=
  let H := fresh "H" in
  intros H; injection H as ? ? ? ?; subst;
  cbn [log warns app] in *;
  split;
  [ intros Hw;
    try (apply app_eq_nil in Hw as [Hw _]);
    try (apply app_eq_nil in Hw as [Hw _]);
    try discriminate Hw;
    unfold base_lyrics;
    try (match goal with
         | H1 : no_blocks ?p = false, H2 : all_parts_empty (or_nil ?p) = false
           |- _ =>
             destruct (proj1 (valid_blocks_iff p) (conj H1 H2))
               as (l0 & Hl0 & Hv0);
             do 2 eexists; repeat split; eassumption
         end)
  | unfold base_lyrics; intros (h0 & l0 & Hh & Hm & Hp & Hv);
    try discriminate Hh;
    try (injection Hh as <-);
    try congruence;
    try (destruct (proj2 (valid_blocks_iff _) (ex_intro _ l0 (conj Hp Hv)));
         congruence) ].

Lemma no_warning_iff BeautifulSoup s buku no_lagu st blocks url ws st' :
  Kjpkjnkb.fetch_lyrics_from_alkitab BeautifulSoup s buku no_lagu st
    = (inr (blocks, url, ws), st')
  \/ GetNkb24.fetch_lyrics_from_alkitab BeautifulSoup s buku no_lagu st
     = (inr (blocks, url, ws), st') ->
  ws = [] <-> base_lyrics BeautifulSoup s (build_alkitab_url buku no_lagu).
Proof.
  unfold base_lyrics.
  set (url_base := build_alkitab_url buku no_lagu).
  intros [H|H]; revert H; run_resolver; fold url_base;
    destruct (s url_base) as [e|html] eqn:Eb; cbn beta iota zeta;
    destruct (s (url_base ++ lit "A")) as [e'|html'] eqn:Ea;
    cbn beta iota zeta; split_cases; leaf_clean.
Qed.

(** The resolver of either script returns without a warning exactly when
    the base request gave a page without the marker that parses into valid
    blocks: every other way through it leaves a warning. *)
Theorem no_warning_means_base_lyrics BeautifulSoup s buku no_lagu st :
  (clean_result (Kjpkjnkb.fetch_lyrics_from_alkitab BeautifulSoup s buku no_lagu) st
   <-> base_lyrics BeautifulSoup s (build_alkitab_url buku no_lagu))
  /\ (clean_result (GetNkb24.fetch_lyrics_from_alkitab BeautifulSoup s buku no_lagu) st
      <-> base_lyrics BeautifulSoup s (build_alkitab_url buku no_lagu)).
Proof.
  unfold clean_result. split; split.
  - intros (blocks & url & st' & H).
    apply (no_warning_iff BeautifulSoup s buku no_lagu st blocks url [] st');
      [left; exact H|reflexivity].
  - intros Hb.
    destruct (kj_resolves_by_requests BeautifulSoup s buku no_lagu st)
      as (blocks & url & ws & st' & H & _).
    exists blocks, url, st'. rewrite H.
    now rewrite (proj2 (no_warning_iff BeautifulSoup s buku no_lagu st
                          blocks url ws st' (or_introl H)) Hb).
  - intros (blocks & url & st' & H).
    apply (no_warning_iff BeautifulSoup s buku no_lagu st blocks url [] st');
      [right; exact H|reflexivity].
  - intros Hb.
    destruct (nkb_resolves_by_requests BeautifulSoup s buku no_lagu st)
      as (blocks & url & ws & st' & H & _).
    exists blocks, url, st'. rewrite H.
    now rewrite (proj2 (no_warning_iff BeautifulSoup s buku no_lagu st
                          blocks url ws st' (or_intror H)) Hb).
Qed.


(** The two scripts' resolvers differ only in the wording of their
    warnings: on the same site they make the same requests, and return the
    same blocks, the same URL and as many warnings. *)
Theorem resolvers_agree BeautifulSoup s buku no_lagu st :
  exists blocks url ws ws' st1 st2,
    Kjpkjnkb.fetch_lyrics_from_alkitab BeautifulSoup s buku no_lagu st
    = (inr (blocks, url, ws), st1)
    /\ GetNkb24.fetch_lyrics_from_alkitab BeautifulSoup s buku no_lagu st
       = (inr (blocks, url, ws'), st2)
    /\ log st1 = log st2
    /\ List.length ws = List.length ws'.
Proof.
  set (url_base := build_alkitab_url buku no_lagu).
  run_resolver; fold url_base.
  destruct (s url_base) as [e|html] eqn:Eb; cbn beta iota zeta;
    destruct (s (url_base ++ lit "A")) as [e'|html'] eqn:Ea;
    cbn beta iota zeta; split_cases;
    try match goal with
        | H : negb true = true |- _ => discriminate H
        | H : negb false = false |- _ => discriminate H
        | H : contains (lit _) (lower (lit _)) = false |- _ =>
            vm_compute in H; discriminate H
        | H : negb (contains (lit _) (lower (lit _))) = true |- _ =>
            vm_compute in H; discriminate H
        end;
    do 6 eexists; repeat split; cbn [log warns app];
    rewrite ?length_app; reflexivity.
Qed.


(** ** The validators *)

Lemma msg_if_nil (b : bool) (m : string) : msg_if b m = [] <-> b = false.
Proof. destruct b; simpl; split; congruence. Qed.

Lemma missing_fields_nil (m : meta) :
  missing_fields m = []
  <-> truthy (meta_buku m) = true /\ meta_no_lagu m <> None
      /\ truthy (meta_judul_text m) = true /\ truthy (meta_info m) = true.
Proof.
  unfold missing_fields.
  destruct (truthy (meta_buku m)), (meta_no_lagu m),
    (truthy (meta_judul_text m)), (truthy (meta_info m)); simpl;
    split; intros H; try discriminate H; try reflexivity;
    try (repeat split; congruence);
    destruct H as (? & ? & ? & ?); congruence.
Qed.

Lemma enforce_required_fields_nil (m : meta) (l : option (list block)) url :
  Kjpkjnkb.enforce_required_fields m l url = [] <-> complete m l.
Proof.
  unfold Kjpkjnkb.enforce_required_fields, complete.
  rewrite <- (valid_blocks_iff l). split.
  - intros H. apply app_eq_nil in H as [H1 H2].
    apply missing_fields_nil in H1 as (? & ? & ? & ?).
    repeat split; try assumption;
      destruct (no_blocks l); try discriminate H2; try reflexivity.
    now apply msg_if_nil in H2.
  - intros (? & ? & ? & ? & Hb1 & Hb2).
    rewrite (proj2 (missing_fields_nil m)) by (repeat split; assumption).
    rewrite Hb1; cbn [orb app]; rewrite Hb2; reflexivity.
Qed.

Lemma validate_nil (m : meta) (l : option (list block)) url :
  GetNkb24.validate m l url = [] <-> complete m l.
Proof.
  unfold GetNkb24.validate, complete.
  rewrite <- (valid_blocks_iff l). split.
  - intros H. apply app_eq_nil in H as [H1 H2].
    apply missing_fields_nil in H1 as (? & ? & ? & ?).
    apply msg_if_nil in H2. apply orb_false_iff in H2 as [? ?].
    repeat split; assumption.
  - intros (? & ? & ? & ? & Hb1 & Hb2).
    rewrite (proj2 (missing_fields_nil m)) by (repeat split; assumption).
    rewrite Hb1; cbn [orb app]; rewrite Hb2; reflexivity.
Qed.

(** [enforce_required_fields] and [validate] return no message exactly for
    a complete record: songbook, title and info not empty, a number, and
    blocks of which one at least has parts. *)
Theorem validators_accept_complete_records
        (m : meta) (l : option (list block)) (url : str) :
  (Kjpkjnkb.enforce_required_fields m l url = [] <-> complete m l)
  /\ (GetNkb24.validate m l url = [] <-> complete m l).
Proof. split; [apply enforce_required_fields_nil|apply validate_nil]. Qed.

(** ** The link files *)

Lemma unify_newlines_no_cr (s : str) :
  Forall (fun c => c <> CR) (unify_newlines s).
Proof.
  unfold unify_newlines. rewrite replace_single.
  apply Forall_forall. intros c Hc.
  apply in_map_iff in Hc as (x & <- & _).
  destruct (N.eqb_spec x CR); [discriminate|assumption].
Qed.

(** What [read_links] returns are links: none is empty, has white space
    around it, starts with "#" or holds a line break. *)
Theorem read_links_are_clean (file : option str) :
  Forall clean_link (read_links file).
Proof.
  destruct file as [content|]; [|constructor].
  unfold read_links, file_lines. apply Forall_forall. intros l Hl.
  apply filter_In in Hl as [Hin Hf].
  apply andb_prop in Hf as [Ht Hh]. apply negb_true_iff in Hh.
  apply in_map_iff in Hin as (x & <- & Hx).
  repeat split.
  - intros E. now rewrite E in Ht.
  - apply strip_idem.
  - exact Hh.
  - apply strip_Forall.
    pose proof (split_sep_free NL (unify_newlines content)) as H1.
    pose proof (split_Forall _ NL _ (unify_newlines_no_cr content)) as H2.
    rewrite Forall_forall in H1, H2.
    specialize (H1 x Hx). specialize (H2 x Hx).
    unfold sep_free in H1. rewrite Forall_forall in H1, H2.
    apply Forall_forall. intros c Hc. split; auto.
Qed.

Lemma filter_all {A} (f : A -> bool) (l : list A) :
  Forall (fun x => f x = true) l -> filter f l = l.
Proof.
  induction 1 as [|x l Hx _ IH]; simpl; [reflexivity|].
  now rewrite Hx, IH.
Qed.

Lemma map_fix {A} (f : A -> A) (l : list A) :
  Forall (fun x => f x = x) l -> map f l = l.
Proof.
  induction 1 as [|x l Hx _ IH]; simpl; [reflexivity|].
  now rewrite Hx, IH.
Qed.

(** A list of links written to a file with a newline between them, as
    kj.py writes kj_links.txt, is read back by [read_links] as it was. *)
Theorem read_links_round_trip (links : list str) :
  Forall clean_link links ->
  read_links (Some (join [NL] links)) = links.
Proof.
  intros H. destruct links as [|l0 ls]; [reflexivity|].
  set (links := l0 :: ls) in *.
  unfold read_links, file_lines.
  assert (Forall (fun c => c <> CR) (join [NL] links)) as Hcr.
  { apply join_Forall; [repeat constructor; discriminate|].
    eapply Forall_impl; [|exact H]. intros l (_ & _ & _ & Hl).
    eapply Forall_impl; [|exact Hl]. now intros c [_ ?]. }
  unfold unify_newlines.
  rewrite (replace_absent CR [NL] [NL] _ Hcr).
  rewrite (replace_absent CR [] [NL] _ Hcr).
  rewrite split_join.
  - rewrite map_fix.
    + apply filter_all. eapply Forall_impl; [|exact H].
      intros l (Hn & _ & Hh & _). rewrite Hh.
      destruct l; [congruence|reflexivity].
    + eapply Forall_impl; [|exact H]. now intros l (_ & Hs & _).
  - discriminate.
  - eapply Forall_impl; [|exact H]. intros l (_ & _ & _ & Hl).
    eapply Forall_impl; [|exact Hl]. now intros c [? _].
Qed.

Lemma read_links_round_trip_witness :
  read_links (Some (join [NL] [lit "https://a.example/kj-1"; lit "https://a.example/kj-2"]))
  = [lit "https://a.example/kj-1"; lit "https://a.example/kj-2"].
Proof.
  apply (read_links_round_trip
           [lit "https://a.example/kj-1"; lit "https://a.example/kj-2"]).
  repeat constructor; try discriminate; try reflexivity;
    try (vm_compute; reflexivity).
Defined.


(** ** The source page *)

Lemma lower_nil_iff (s : str) : lower s = [] <-> s = [].
Proof.
  split; [|now intros ->].
  destruct s as [|c s]; [reflexivity|]. unfold lower. cbn [flat_map].
  destruct (in_range 65 90 c); [discriminate|].
  destruct (c =? 8490); [discriminate|].
  destruct (c =? 304); discriminate.
Qed.

Lemma tune_line_not_empty (line : str) :
  is_tune_line line = true -> truthy (Some (strip line)) = true.
Proof.
  unfold is_tune_line. destruct (strip line) eqn:E; [|reflexivity].
  discriminate.
Qed.

Lemma beat_line_not_empty (line : str) :
  is_beat_line line = true -> truthy (Some (strip line)) = true.
Proof.
  unfold is_beat_line. destruct (strip line) eqn:E; [|reflexivity].
  discriminate.
Qed.

Lemma scan_tune_beat_from (lines : list str) :
  forall tune beat,
    (is_null tune = true \/ truthy tune = true) ->
    (is_null beat = true \/ truthy beat = true) ->
    scan_tune_beat lines tune beat
    = (or_else tune (option_map strip (find is_tune_line lines)),
       or_else beat (option_map strip (find is_beat_line lines))).
Proof.
  induction lines as [|line rest IH]; intros tune beat Ht Hb.
  - destruct tune, beat; reflexivity.
  - cbn [scan_tune_beat find].
    fold (is_tune_line line). fold (is_beat_line line).
    pose proof (tune_line_not_empty line) as Htl.
    pose proof (beat_line_not_empty line) as Hbl.
    destruct (is_tune_line line) eqn:Et, (is_beat_line line) eqn:Eb;
      destruct tune as [t|], beat as [b|]; cbn [is_null andb or_else option_map];
      repeat match goal with
             | H : true = true -> _ |- _ => specialize (H eq_refl)
             | H : _ \/ _ |- _ => destruct H as [H|H]; try discriminate H
             | H : truthy _ = true |- _ => rewrite H
             end;
      cbn [andb truthy]; try reflexivity;
      try (rewrite IH by (first [now left|now right]); reflexivity).
Qed.

(** The scan of the paragraph lines gives the first line that starts with
    "do =" as the tune and the first that contains "ketuk" as the beat,
    each stripped and absent when there is none: stopping at the line where
    both are known loses nothing. *)
Theorem scan_finds_first_tune_and_beat (lines : list str) :
  scan_tune_beat lines None None
  = (option_map strip (find is_tune_line lines),
     option_map strip (find is_beat_line lines)).
Proof. apply scan_tune_beat_from; now left. Qed.

Lemma matches_has_tag (tag cls : string) (n : Html.node) :
  Html.matches (tag_class tag cls) n = true -> has_tag tag n = true.
Proof.
  destruct n as [t classes children|]; simpl; [|discriminate].
  intros H. now apply andb_prop in H as [H _].
Qed.

Lemma filter_sub_nil {A} (f g : A -> bool) (l : list A) :
  (forall x, f x = true -> g x = true) -> filter g l = [] -> filter f l = [].
Proof.
  intros Hfg. induction l as [|x l IH]; simpl; [reflexivity|].
  destruct (g x) eqn:Eg; [discriminate|]. intros H.
  destruct (f x) eqn:Ef; [|now apply IH].
  apply Hfg in Ef. congruence.
Qed.

Lemma find_article_none (soup : Html.node) :
  find_article soup = None <-> select_tag "article" soup = [].
Proof.
  unfold find_article, select_one_tag, Html.select_one, Html.select, select_tag.
  split.
  - intros H.
    destruct (filter (Html.matches (tag_class "article" "entry")) _);
      [|discriminate H].
    destruct (filter (Html.matches (tag_class "article" "post")) _);
      [|discriminate H].
    cbn [hd_error or_else] in H.
    now destruct (filter (has_tag "article") _).
  - intros H.
    rewrite (filter_sub_nil _ _ _ (matches_has_tag "article" "entry") H).
    rewrite (filter_sub_nil _ _ _ (matches_has_tag "article" "post") H).
    now rewrite H.
Qed.

Lemma source_usable_article BeautifulSoup (s : session) url html a :
  s url = inr html -> find_article (BeautifulSoup html) = Some a ->
  ~ source_unusable BeautifulSoup s url.
Proof.
  intros Hs Ha [(e & He)|(h & Hh & Hn)]; [congruence|].
  rewrite Hs in Hh. injection Hh as <-.
  apply find_article_none in Hn. congruence.
Qed.

(** ** One source page *)

Ltac run_scrape :=
  unfold Kjpkjnkb.scrape_one, GetNkb24.main,
    Kjpkjnkb.extract_metadata_from_source,
    GetNkb24.extract_metadata_from_source, bind, fetch_html, lift, ret;
  cbn beta iota zeta.

(** What [scrape_one] does once the source page and its article are at
    hand: without songbook or number it makes no further request; else it
    stores what the resolver returns. *)
Lemma scrape_one_usable BeautifulSoup s utcnow url expected_buku st html a :
  s url = inr html -> find_article (BeautifulSoup html) = Some a ->
  let m0 := metadata_of_article Kjpkjnkb.split_title a in
  let m := if negb (truthy (meta_buku m0)) && truthy expected_buku
           then set_buku m0 (Some (upper (or_empty expected_buku))) else m0 in
  let st1 := {| log := log st ++ [url]; warns := warns st |} in
  if has_identity m
  then exists blocks lurl ws st',
      Kjpkjnkb.fetch_lyrics_from_alkitab BeautifulSoup s
        (or_empty (meta_buku m)) (number_of m) st1
      = (inr (blocks, lurl, ws), st')
      /\ Kjpkjnkb.scrape_one BeautifulSoup s utcnow url expected_buku st
         = (inr (Kjpkjnkb.to_db_row (utcnow (log st')) m url blocks (Some lurl)
                   (Kjpkjnkb.enforce_required_fields m blocks url ++ ws)), st')
  else Kjpkjnkb.scrape_one BeautifulSoup s utcnow url expected_buku st
       = (inr (Kjpkjnkb.to_db_row (utcnow (log st1)) m url None None
                 (Kjpkjnkb.enforce_required_fields m None url
                  ++ [lit "Cannot fetch alkitab.app lyrics: buku/no_lagu not available."])),
          st1).
Proof.
  intros Hs Ha m0 m st1. run_scrape. rewrite Hs, Ha. cbn beta iota zeta.
  fold m0. fold m. fold st1.
  destruct (has_identity m) eqn:Hi.
  - destruct (kj_resolves_by_requests BeautifulSoup s
                (or_empty (meta_buku m)) (number_of m) st1)
      as (blocks & lurl & ws & st' & Hrun & _).
    exists blocks, lurl, ws, st'. split; [exact Hrun|].
    rewrite Hrun. reflexivity.
  - reflexivity.
Qed.

(** [scrape_one] raises exactly when the source page cannot be used: its
    request raises or the page has no article element.  Whatever happens
    on the lyrics site, it returns a row. *)
Theorem scrape_one_raises_only_for_source BeautifulSoup s utcnow
        url expected_buku st :
  (exists e st', Kjpkjnkb.scrape_one BeautifulSoup s utcnow url expected_buku st = (inl e, st'))
  <-> source_unusable BeautifulSoup s url.
Proof.
  split.
  - intros (e & st' & H).
    destruct (s url) as [e0|html] eqn:Hs; [left; now exists e0|].
    destruct (find_article (BeautifulSoup html)) as [a|] eqn:Ha.
    + pose proof (scrape_one_usable BeautifulSoup s utcnow url expected_buku st
                                        html a Hs Ha) as Hu.
      cbv zeta in Hu.
      destruct (has_identity _); [destruct Hu as (? & ? & ? & ? & _ & Hu)|];
        rewrite Hu in H; discriminate H.
    + right. exists html. split; [exact Hs|].
      now apply find_article_none.
  - intros [(e & He)|(html & Hh & Hn)].
    + exists e, {| log := log st ++ [url]; warns := warns st |}.
      run_scrape. now rewrite He.
    + apply find_article_none in Hn. eexists. eexists.
      run_scrape. rewrite Hh, Hn. reflexivity.
Qed.


Lemma returned_inj {A} (x y : A) (st st' : state) :
  (@inr exn A x, st) = (inr y, st') -> x = y /\ st = st'.
Proof. intros H. injection H as <- <-. now split. Qed.

Lemma join_warnings_none (ws : list str) : join_warnings ws = None <-> ws = [].
Proof. destruct ws; simpl; split; congruence. Qed.

Lemma has_identity_key (m : meta) :
  has_identity m = true ->
  exists b n, meta_buku m = Some b /\ b <> [] /\ meta_no_lagu m = Some n.
Proof.
  unfold has_identity. intros H. apply andb_prop in H as [H1 H2].
  destruct (meta_buku m) as [[|c b]|]; try discriminate H1.
  destruct (meta_no_lagu m) as [n|]; [|discriminate H2].
  exists (c :: b), n. repeat split. discriminate.
Qed.

(** A row that [scrape_one] returns without warnings is complete: it has
    songbook, number, title and info, lyric blocks with parts read from the
    base URL of its own songbook and number, and [upsert_hymn] accepts
    it. *)
Theorem row_without_warnings_is_complete BeautifulSoup s utcnow
        url expected_buku st r st' :
  Kjpkjnkb.scrape_one BeautifulSoup s utcnow url expected_buku st = (inr r, st') ->
  warnings r = None ->
  exists b n html blocks,
    buku r = Some b /\ b <> [] /\ no_lagu r = Some n
    /\ truthy (judul_text r) = true /\ truthy (info r) = true
    /\ s (build_alkitab_url b n) = inr html
    /\ parse_alkitab_page BeautifulSoup html = Some blocks
    /\ valid_blocks blocks = true
    /\ lirik_json r = Some (dumps_lirik (Some blocks))
    /\ lyrics_source_url r = Some (build_alkitab_url b n)
    /\ not_null_violation r = None.
Proof.
  intros Hrun Hw.
  destruct (s url) as [e0|page] eqn:Hs.
  { revert Hrun. run_scrape. rewrite Hs. discriminate. }
  destruct (find_article (BeautifulSoup page)) as [a|] eqn:Ha.
  2:{ revert Hrun. run_scrape. rewrite Hs, Ha. discriminate. }
  pose proof (scrape_one_usable BeautifulSoup s utcnow url expected_buku st
                                page a Hs Ha) as Hu.
  cbv zeta in Hu.
  set (m0 := metadata_of_article Kjpkjnkb.split_title a) in *.
  set (m := if negb (truthy (meta_buku m0)) && truthy expected_buku
            then set_buku m0 (Some (upper (or_empty expected_buku)))
            else m0) in *.
  destruct (has_identity m) eqn:Hi.
  - destruct Hu as (blocks & lurl & ws & st1 & Hres & Hu).
    rewrite Hu in Hrun. apply returned_inj in Hrun as [<- <-].
    cbn [Kjpkjnkb.to_db_row warnings] in Hw.
    apply join_warnings_none in Hw. apply app_eq_nil in Hw as [Hk Hws].
    subst ws.
    apply enforce_required_fields_nil in Hk
      as (_ & _ & Hj & Hinfo & bl & -> & Hv).
    destruct (has_identity_key m Hi) as (b & n & Hb & Hbn & Hn).
    assert (or_empty (meta_buku m) = b) as Eb by now rewrite Hb.
    assert (number_of m = n) as En by (unfold number_of; now rewrite Hn).
    rewrite Eb, En in Hres.
    pose proof (proj1 (no_warning_iff BeautifulSoup s b n _ _ _ _ _
                         (or_introl Hres)) eq_refl)
      as (html & l & Hbase & Hm & Hp & Hvl).
    destruct (kj_resolves_by_requests BeautifulSoup s b n
                {| log := log st ++ [url]; warns := warns st |})
      as (blocks' & url' & ws' & st1' & Hres' & _ & Hlog & Hblocks).
    rewrite Hres in Hres'. injection Hres' as <- <- <- <-.
    unfold second_stage in Hlog. rewrite Hbase, Hm in Hlog.
    destruct Hlog as [_ ->].
    destruct Hblocks as [Hnone|(html' & Hh' & Hb')]; [discriminate Hnone|].
    rewrite Hbase in Hh'. injection Hh' as <-.
    exists b, n, html, bl.
    cbn [Kjpkjnkb.to_db_row buku no_lagu judul_text info lirik_json
           lyrics_source_url].
    unfold not_null_violation.
    cbn [Kjpkjnkb.to_db_row buku no_lagu judul_text info lirik_json
           source_url fetched_at].
    rewrite Hb, Hn.
    destruct (meta_judul_text m); [|discriminate Hj].
    repeat split; try assumption; try reflexivity. now symmetry.
  - rewrite Hu in Hrun. apply returned_inj in Hrun as [<- <-].
    cbn [Kjpkjnkb.to_db_row warnings] in Hw.
    apply join_warnings_none in Hw. apply app_eq_nil in Hw as [_ Hw].
    discriminate Hw.
Qed.

Lemma row_without_warnings_is_complete_witness :
  exists b n html blocks,
    buku dash_row = Some b /\ b <> [] /\ no_lagu dash_row = Some n
    /\ truthy (judul_text dash_row) = true /\ truthy (info dash_row) = true
    /\ site (build_alkitab_url b n) = inr html
    /\ parse_alkitab_page site_soup html = Some blocks
    /\ valid_blocks blocks = true
    /\ lirik_json dash_row = Some (dumps_lirik (Some blocks))
    /\ lyrics_source_url dash_row = Some (build_alkitab_url b n)
    /\ not_null_violation dash_row = None.
Proof.
  apply (row_without_warnings_is_complete site_soup site noon dash_url
           (Some (lit "NKB")) fresh dash_row
           {| log := [dash_url; nkb24]; warns := [] |});
    vm_compute; reflexivity.
Defined.


(** ** A file of links *)

Lemma upserts_keep_unique (rows : list row) :
  forall d, unique_keys d -> unique_keys (fold_left after_upsert rows d).
Proof.
  induction rows as [|r rows IH]; intros d H; [exact H|].
  cbn [fold_left]. now apply IH, upsert_keeps_unique.
Qed.

Lemma upserts_keep_ids (rows : list row) :
  forall d, ids_fresh d ->
    ids_fresh (fold_left after_upsert rows d)
    /\ firstn (List.length (hymns d))
              (map id (hymns (fold_left after_upsert rows d)))
       = map id (hymns d).
Proof.
  induction rows as [|r rows IH]; intros d H.
  - split; [exact H|]. cbn [fold_left].
    rewrite <- (length_map id), firstn_all. reflexivity.
  - cbn [fold_left].
    destruct (upsert_ids_fresh d r H) as [H1 P1].
    destruct (IH _ H1) as [H2 P2]. split; [exact H2|].
    assert (List.length (hymns d) <= List.length (hymns (after_upsert d r)))%nat
      as Hle.
    { apply (f_equal (@List.length _)) in P1.
      rewrite length_firstn, !length_map in P1. lia. }
    transitivity (firstn (List.length (hymns d))
                    (firstn (List.length (hymns (after_upsert d r)))
                       (map id (hymns (fold_left after_upsert rows
                                         (after_upsert d r)))))).
    + rewrite firstn_firstn. f_equal. lia.
    + rewrite P2. exact P1.
Qed.

(** One round of the loop of [process_file]: the link is requested, then
    at most two addresses of the lyrics site; either the row is stored and
    counted as done, or the store stays as it is and an error is counted. *)
Lemma process_link_step BeautifulSoup s utcnow hymnal ok err w url :
  exists ok' err' w' extra,
    Kjpkjnkb.process_link BeautifulSoup s utcnow hymnal (ok, err, w) url
    = (ok', err', w')
    /\ log (w_state w') = log (w_state w) ++ url :: extra
    /\ (List.length extra <= 2)%nat
    /\ ((ok' = S ok /\ err' = err
         /\ exists r, not_null_violation r = None
                      /\ source_url r = Some url
                      /\ w_db w' = after_upsert (w_db w) r)
        \/ (ok' = ok /\ err' = S err /\ w_db w' = w_db w)).
Proof.
  unfold Kjpkjnkb.process_link.
  destruct (s url) as [e|page] eqn:Hs.
  { assert (Kjpkjnkb.scrape_one BeautifulSoup s utcnow url (Some hymnal)
                                (w_state w)
            = (inl e, {| log := log (w_state w) ++ [url];
                         warns := warns (w_state w) |})) as ->
        by (run_scrape; now rewrite Hs).
    destruct e; do 3 eexists; exists []; repeat split; try reflexivity;
      try (simpl; lia); right; repeat split. }
  destruct (find_article (BeautifulSoup page)) as [a|] eqn:Ha.
  2:{ assert (Kjpkjnkb.scrape_one BeautifulSoup s utcnow url (Some hymnal)
                                  (w_state w)
              = (inl (Exception (lit "Article element not found with expected selectors.")),
                 {| log := log (w_state w) ++ [url];
                    warns := warns (w_state w) |})) as ->
        by (run_scrape; now rewrite Hs, Ha).
      do 3 eexists; exists []; repeat split; try reflexivity;
        try (simpl; lia); right; repeat split. }
  pose proof (scrape_one_usable BeautifulSoup s utcnow url (Some hymnal)
                                (w_state w) page a Hs Ha) as Hu.
  cbv zeta in Hu.
  set (m0 := metadata_of_article Kjpkjnkb.split_title a) in *.
  set (m := if negb (truthy (meta_buku m0)) && truthy (Some hymnal)
            then set_buku m0 (Some (upper (or_empty (Some hymnal))))
            else m0) in *.
  set (st1 := {| log := log (w_state w) ++ [url]; warns := warns (w_state w) |})
    in *.
  destruct (has_identity m) eqn:Hi.
  - destruct Hu as (blocks & lurl & ws & st' & Hres & ->).
    destruct (kj_resolves_by_requests BeautifulSoup s
                (or_empty (meta_buku m)) (number_of m) st1)
      as (blocks' & url' & ws' & st1' & Hres' & _ & Hlog & _).
    rewrite Hres in Hres'. injection Hres' as <- <- <- <-.
    set (r := Kjpkjnkb.to_db_row _ _ _ _ _ _).
    assert (exists extra, log st' = log (w_state w) ++ url :: extra
                          /\ (List.length extra <= 2)%nat)
      as (extra & Hl & Hlen).
    { destruct (second_stage _ _); destruct Hlog as [-> _];
        subst st1; cbn [log]; rewrite <- app_assoc;
        eexists; (split; [reflexivity|simpl; lia]). }
    unfold after_upsert.
    destruct (upsert_hymn (w_db w) r) as [d|c] eqn:Hup;
      do 3 eexists; exists extra; (split; [reflexivity|]);
      (split; [exact Hl|]); (split; [exact Hlen|]).
    + left. repeat split. exists r. rewrite Hup. repeat split.
      unfold upsert_hymn in Hup.
      destruct (not_null_violation r); [discriminate Hup|reflexivity].
    + right. repeat split.
  - rewrite Hu. set (r := Kjpkjnkb.to_db_row _ _ _ _ _ _).
    unfold after_upsert.
    destruct (upsert_hymn (w_db w) r) as [d|c] eqn:Hup;
      do 3 eexists; exists []; (split; [reflexivity|]);
      (split; [reflexivity|]); (split; [simpl; lia|]).
    + left. repeat split. exists r. rewrite Hup. repeat split.
      unfold upsert_hymn in Hup.
      destruct (not_null_violation r); [discriminate Hup|reflexivity].
    + right. repeat split.
Qed.

(** The loop of [process_file] over [links]: every link is counted once,
    the requests are the links with at most two lyrics requests after
    each, and the store is the one before with the rows counted as done
    upserted in order. *)
Lemma process_links_fold BeautifulSoup s utcnow hymnal (links : list str) :
  forall ok err w,
  exists ok' err' w' rows,
    fold_left (Kjpkjnkb.process_link BeautifulSoup s utcnow hymnal) links
              (ok, err, w)
    = (ok', err', w')
    /\ (ok' + err' = ok + err + List.length links)%nat
    /\ ok' = (ok + List.length rows)%nat
    /\ w_db w' = fold_left after_upsert rows (w_db w)
    /\ Forall (fun r => not_null_violation r = None
                        /\ exists url, In url links /\ source_url r = Some url)
              rows
    /\ (List.length (log (w_state w)) + List.length links
        <= List.length (log (w_state w'))
        <= List.length (log (w_state w)) + 3 * List.length links)%nat.
Proof.
  induction links as [|url links IH]; intros ok err w.
  - exists ok, err, w, []. cbn [fold_left List.length]. repeat split; try lia.
    constructor.
  - cbn [fold_left].
    destruct (process_link_step BeautifulSoup s utcnow hymnal ok err w url)
      as (ok1 & err1 & w1 & extra & -> & Hlog & Hlen & Hcase).
    destruct (IH ok1 err1 w1)
      as (ok' & err' & w' & rows & -> & Hsum & Hok & Hdb & Hrows & Hreq).
    assert (List.length (log (w_state w1))
            = List.length (log (w_state w)) + 1 + List.length extra)%nat as Hl1.
    { rewrite Hlog, length_app. simpl. lia. }
    assert (Forall (fun r => not_null_violation r = None
                             /\ exists u, In u (url :: links)
                                          /\ source_url r = Some u) rows)
      as Hrows'.
    { eapply Forall_impl; [|exact Hrows].
      intros r [? (u & ? & ?)]. split; [assumption|].
      exists u. split; [now right|assumption]. }
    destruct Hcase as [(-> & -> & r & Hv & Hsrc & Hd)|(-> & -> & Hd)].
    + exists ok', err', w', (r :: rows). cbn [fold_left List.length].
      rewrite <- Hd. repeat split; try assumption; try lia.
      constructor; [|assumption]. split; [assumption|].
      exists url. split; [now left|assumption].
    + exists ok', err', w', rows. cbn [List.length].
      rewrite <- Hd. repeat split; try assumption; try lia.
Qed.


(** [process_file] counts every link it works on once, as done or as an
    error: all links of the file, or five of them at most when testing.
    It asks for each link once and for at most two addresses of the lyrics
    site per link.  [random.sample] is taken to return as many items as
    asked for. *)
Theorem process_file_counts BeautifulSoup s utcnow random_sample
        hymnal file testing w :
  (forall l k, (k <= List.length l)%nat ->
               List.length (random_sample l k) = k) ->
  exists ok err w',
    Kjpkjnkb.process_file BeautifulSoup s utcnow random_sample
                          hymnal file testing w
    = (ok, err, w')
    /\ (ok + err = if testing
                   then Nat.min 5 (List.length (read_links file))
                   else List.length (read_links file))%nat
    /\ (List.length (log (w_state w)) + (ok + err)
        <= List.length (log (w_state w'))
        <= List.length (log (w_state w)) + 3 * (ok + err))%nat.
Proof.
  intros Hsample. unfold Kjpkjnkb.process_file.
  destruct (read_links file) as [|l0 ls] eqn:E.
  - exists O, O, w. repeat split; try (destruct testing; reflexivity);
      simpl; lia.
  - set (links := if testing then _ else _).
    destruct (process_links_fold BeautifulSoup s utcnow hymnal links O O w)
      as (ok & err & w' & rows & -> & Hsum & _ & _ & _ & Hreq).
    exists ok, err, w'. split; [reflexivity|].
    assert (List.length links
            = if testing then Nat.min 5 (List.length (l0 :: ls))
              else List.length (l0 :: ls)) as Hl.
    { subst links. destruct testing; [|reflexivity].
      apply Hsample. apply Nat.le_min_r. }
    rewrite <- Hl. split; lia.
Qed.

Lemma process_file_counts_witness :
  exists ok err w',
    Kjpkjnkb.process_file site_soup site noon (fun l k => firstn k l)
                          (lit "NKB")
                          (Some (join [NL] [dash_url; GetNkb24.SOURCE_URL]))
                          false start
    = (ok, err, w')
    /\ (ok + err
        = List.length (read_links
                         (Some (join [NL] [dash_url; GetNkb24.SOURCE_URL]))))%nat
    /\ (List.length (log (w_state start)) + (ok + err)
        <= List.length (log (w_state w'))
        <= List.length (log (w_state start)) + 3 * (ok + err))%nat.
Proof.
  apply (process_file_counts site_soup site noon (fun l k => firstn k l)
           (lit "NKB") (Some (join [NL] [dash_url; GetNkb24.SOURCE_URL]))
           false start).
  intros l k H. apply firstn_length_le. exact H.
Defined.

(** [process_file] leaves the store sound: keys stay unique, ids stay
    distinct, and the rows that were there keep their ids and places, so
    that no run deletes or reorders a row. *)
Theorem process_file_keeps_store_sound BeautifulSoup s utcnow random_sample
        hymnal file testing w :
  unique_keys (w_db w) -> ids_fresh (w_db w) ->
  exists ok err w',
    Kjpkjnkb.process_file BeautifulSoup s utcnow random_sample
                          hymnal file testing w
    = (ok, err, w')
    /\ unique_keys (w_db w')
    /\ ids_fresh (w_db w')
    /\ firstn (List.length (hymns (w_db w))) (map id (hymns (w_db w')))
       = map id (hymns (w_db w))
    /\ (List.length (hymns (w_db w')) <= List.length (hymns (w_db w)) + ok)%nat.
Proof.
  intros Hu Hi. unfold Kjpkjnkb.process_file.
  destruct (read_links file) as [|l0 ls] eqn:E.
  - exists O, O, w. repeat split; try assumption; try apply Hi; try lia.
    rewrite <- (length_map id), firstn_all. reflexivity.
  - set (links := if testing then _ else _).
    destruct (process_links_fold BeautifulSoup s utcnow hymnal links O O w)
      as (ok & err & w' & rows & -> & _ & Hok & Hdb & _ & _).
    exists ok, err, w'. split; [reflexivity|]. rewrite Hdb.
    destruct (upserts_keep_ids rows (w_db w) Hi) as [H1 H2].
    repeat split; try apply H1; try exact H2.
    + now apply upserts_keep_unique.
    + subst ok. cbn [Nat.add]. clear -Hi. revert Hi.
      generalize (w_db w). induction rows as [|r rows IH]; intros d Hi.
      * simpl. lia.
      * cbn [fold_left List.length].
        specialize (IH _ (proj1 (upsert_ids_fresh d r Hi))).
        assert (List.length (hymns (after_upsert d r))
                <= S (List.length (hymns d)))%nat; [|lia].
        unfold after_upsert, upsert_hymn.
        destruct (not_null_violation r); [lia|]. cbn zeta.
        destruct (existsb _ _); cbn [hymns].
        -- rewrite length_map. lia.
        -- rewrite length_app. simpl. lia.
Qed.

Lemma process_file_keeps_store_sound_witness :
  exists ok err w',
    Kjpkjnkb.process_file site_soup site noon (fun l k => firstn k l)
                          (lit "NKB")
                          (Some (join [NL] [dash_url; GetNkb24.SOURCE_URL]))
                          true start
    = (ok, err, w')
    /\ unique_keys (w_db w')
    /\ ids_fresh (w_db w')
    /\ firstn (List.length (hymns (w_db start))) (map id (hymns (w_db w')))
       = map id (hymns (w_db start))
    /\ (List.length (hymns (w_db w')) <= List.length (hymns (w_db start)) + ok)%nat.
Proof.
  apply (process_file_keeps_store_sound site_soup site noon
           (fun l k => firstn k l) (lit "NKB")
           (Some (join [NL] [dash_url; GetNkb24.SOURCE_URL])) true start).
  - exact empty_db_unique.
  - exact empty_db_ids_fresh.
Defined.

(** What [process_file] writes comes from its file: the store after a run
    is the store before with one accepted row upserted for every link
    counted as done, in order, each with a link of the file as its
    source. *)
Theorem process_file_writes_its_links BeautifulSoup s utcnow random_sample
        hymnal file w :
  exists ok err w' rows,
    Kjpkjnkb.process_file BeautifulSoup s utcnow random_sample
                          hymnal file false w
    = (ok, err, w')
    /\ List.length rows = ok
    /\ w_db w' = fold_left after_upsert rows (w_db w)
    /\ Forall (fun r => not_null_violation r = None
                        /\ exists url, In url (read_links file)
                                       /\ source_url r = Some url) rows.
Proof.
  unfold Kjpkjnkb.process_file.
  destruct (read_links file) as [|l0 ls] eqn:E.
  - exists O, O, w, []. repeat split. constructor.
  - destruct (process_links_fold BeautifulSoup s utcnow hymnal (l0 :: ls) O O w)
      as (ok & err & w' & rows & -> & _ & Hok & Hdb & Hrows & _).
    exists ok, err, w', rows. repeat split; try assumption. now subst ok.
Qed.

(** A source page whose heading gives no number is counted as an error by
    [process_file]'s loop: the row cannot be stored, the store stays as it
    is, and the lyrics site is not asked. *)
Theorem page_without_number_is_an_error BeautifulSoup s utcnow
        hymnal ok err w url html article :
  s url = inr html ->
  find_article (BeautifulSoup html) = Some article ->
  meta_no_lagu (metadata_of_article Kjpkjnkb.split_title article) = None ->
  Kjpkjnkb.process_link BeautifulSoup s utcnow hymnal (ok, err, w) url
  = (ok, S err,
     {| w_db := w_db w;
        w_state := {| log := log (w_state w) ++ [url];
                      warns := warns (w_state w) |} |}).
Proof.
  intros Hs Ha Hn.
  pose proof (scrape_one_usable BeautifulSoup s utcnow url (Some hymnal)
                                (w_state w) html article Hs Ha) as Hu.
  cbv zeta in Hu.
  set (m0 := metadata_of_article Kjpkjnkb.split_title article) in *.
  set (m := if negb (truthy (meta_buku m0)) && truthy (Some hymnal)
            then set_buku m0 (Some (upper (or_empty (Some hymnal))))
            else m0) in *.
  assert (meta_no_lagu m = None) as Hm
      by (subst m; destruct (negb _ && _); assumption).
  assert (has_identity m = false) as Hi
      by (unfold has_identity; rewrite Hm; apply andb_false_r).
  rewrite Hi in Hu. unfold Kjpkjnkb.process_link. rewrite Hu.
  unfold upsert_hymn, not_null_violation.
  cbn [Kjpkjnkb.to_db_row buku no_lagu]. rewrite Hm.
  destruct (is_null (meta_buku m)); reflexivity.
Qed.

Lemma page_without_number_is_an_error_witness :
  Kjpkjnkb.process_link site_soup site noon (lit "NKB") (O, O, start)
                        GetNkb24.SOURCE_URL
  = (O, 1%nat,
     {| w_db := w_db start;
        w_state := {| log := log (w_state start) ++ [GetNkb24.SOURCE_URL];
                      warns := warns (w_state start) |} |}).
Proof.
  apply (page_without_number_is_an_error site_soup site noon (lit "NKB")
           O O start GetNkb24.SOURCE_URL comma_page
           (elem "article" ["entry"%string]
              [ elem "h1" ["entry-title"%string]
                  [Html.Text (lit "NKB 024, Tuhan Kasihanilah Kami")];
                div ["entry-content"%string]
                  [ elem "p" [] [Html.Text (lit "Syair: Kyrie eleison")];
                    elem "p" [] [Html.Text (lit "do = g");
                                 Html.Text (lit " 4 ketuk ")] ] ]));
    vm_compute; reflexivity.
Defined.


(** ** The single-song script *)

Lemma has_parts_valid (l : option (list block)) :
  negb (no_blocks l)
  && existsb (fun blk => match parts blk with
                         | [] => false
                         | _ :: _ => true
                         end) (or_nil l)
  = true
  <-> exists blocks, l = Some blocks /\ valid_blocks blocks = true.
Proof.
  rewrite <- valid_blocks_iff.
  assert (forall bs : list block,
             existsb (fun blk => match parts blk with
                                 | [] => false
                                 | _ :: _ => true
                                 end) bs
             = negb (all_parts_empty bs)) as E.
  { induction bs as [|b bs IH]; [reflexivity|].
    unfold all_parts_empty in *. cbn [existsb forallb]. rewrite IH.
    now destruct (parts b). }
  rewrite E. destruct (no_blocks l), (all_parts_empty (or_nil l)); simpl;
    split; try intros [? ?]; try discriminate; auto.
Qed.

(** What [main] does once the source page and its article are at hand. *)
Lemma main_usable BeautifulSoup s utcnow conn st html a :
  s GetNkb24.SOURCE_URL = inr html ->
  find_article (BeautifulSoup html) = Some a ->
  let m := metadata_of_article GetNkb24.split_title a in
  exists lirik_list lyrics_url ws st',
    (if has_identity m
     then exists lurl,
         GetNkb24.fetch_lyrics_from_alkitab BeautifulSoup s
           (or_empty (meta_buku m)) (number_of m)
           {| log := log st ++ [GetNkb24.SOURCE_URL]; warns := warns st |}
         = (inr (lirik_list, lurl, ws), st')
         /\ lyrics_url = Some lurl
     else lirik_list = None /\ lyrics_url = None)
    /\ let r := GetNkb24.main_row (utcnow (log st')) m lirik_list lyrics_url
                  (GetNkb24.validate m lirik_list GetNkb24.SOURCE_URL ++ ws) in
       GetNkb24.main BeautifulSoup s utcnow conn st
       = match upsert_hymn conn r with
         | Done d =>
             (inr (d, negb (no_blocks lirik_list)
                      && existsb (fun blk => match parts blk with
                                             | [] => false
                                             | _ :: _ => true
                                             end) (or_nil lirik_list)), st')
         | IntegrityError column =>
             (inl (Exception (lit "NOT NULL constraint failed: hymns."
                              ++ lit column)), st')
         end.
Proof.
  intros Hs Ha m. run_scrape. rewrite Hs, Ha. cbn beta iota zeta. fold m.
  destruct (has_identity m) eqn:Hi.
  - destruct (nkb_resolves_by_requests BeautifulSoup s
                (or_empty (meta_buku m)) (number_of m)
                {| log := log st ++ [GetNkb24.SOURCE_URL]; warns := warns st |})
      as (blocks & lurl & ws & st' & Hrun & _).
    exists blocks, (Some lurl), ws, st'. split; [now exists lurl|].
    rewrite Hrun. reflexivity.
  - do 4 eexists. split; [split; reflexivity|]. reflexivity.
Qed.

Lemma main_row_violation now m l u ws :
  not_null_violation (GetNkb24.main_row now m l u ws) = None
  <-> heading_usable m = true.
Proof.
  unfold not_null_violation, heading_usable.
  cbn [GetNkb24.main_row buku no_lagu judul_text lirik_json source_url
         fetched_at is_null].
  destruct (meta_buku m), (meta_no_lagu m), (meta_judul_text m); simpl;
    split; congruence.
Qed.

(** [main] of get_nkb_24 ends in an exception exactly when the source page
    cannot be used or its heading does not give songbook, number and
    title; no failure of the lyrics site stops it. *)
Theorem main_raises_only_for_source BeautifulSoup s utcnow conn st :
  (exists e st', GetNkb24.main BeautifulSoup s utcnow conn st = (inl e, st'))
  <-> source_unusable BeautifulSoup s GetNkb24.SOURCE_URL
      \/ exists html a,
          s GetNkb24.SOURCE_URL = inr html
          /\ find_article (BeautifulSoup html) = Some a
          /\ heading_usable (metadata_of_article GetNkb24.split_title a)
             = false.
Proof.
  split.
  - intros (e & st' & H).
    destruct (s GetNkb24.SOURCE_URL) as [e0|html] eqn:Hs;
      [left; left; now exists e0|].
    destruct (find_article (BeautifulSoup html)) as [a|] eqn:Ha.
    + right. exists html, a. split; [reflexivity|]. split; [exact Ha|].
      destruct (main_usable BeautifulSoup s utcnow conn st html a Hs Ha)
        as (l & u & ws & st1 & _ & Hm).
      cbv zeta in Hm. rewrite Hm in H. clear Hm.
      unfold upsert_hymn in H.
      destruct (not_null_violation _) eqn:Hv.
      * destruct (heading_usable (metadata_of_article GetNkb24.split_title a))
          eqn:Hh; [|reflexivity].
        rewrite (proj2 (main_row_violation _ _ _ _ _) Hh) in Hv.
        discriminate Hv.
      * cbn zeta in H. destruct (existsb _ _); discriminate H.
    + left. right. exists html. split; [exact Hs|].
      now apply find_article_none.
  - intros [[(e & He)|(html & Hh & Hn)]|(html & a & Hs & Ha & Hu)].
    + do 2 eexists. run_scrape. rewrite He. reflexivity.
    + apply find_article_none in Hn. do 2 eexists.
      run_scrape. rewrite Hh, Hn. reflexivity.
    + destruct (main_usable BeautifulSoup s utcnow conn st html a Hs Ha)
        as (l & u & ws & st1 & _ & Hm).
      cbv zeta in Hm. rewrite Hm. unfold upsert_hymn.
      destruct (not_null_violation _) eqn:Hv.
      * do 2 eexists. reflexivity.
      * apply main_row_violation in Hv. congruence.
Qed.

(** When [main] of get_nkb_24 returns, the store holds exactly one row
    under the song's key, with [SOURCE_URL] as its source, and the other
    keys as before.  The [has_lirik] flag it prints is true exactly when
    the lyrics stored are blocks with parts; where it is false the row
    carries a warning. *)
Theorem main_stores_the_song BeautifulSoup s utcnow conn st d flag st' :
  unique_keys conn ->
  GetNkb24.main BeautifulSoup s utcnow conn st = (inr (d, flag), st') ->
  exists b n r lirik_list,
    select_hymn d b n = [r]
    /\ buku r = Some b /\ no_lagu r = Some n
    /\ source_url r = Some GetNkb24.SOURCE_URL
    /\ lirik_json r = Some (dumps_lirik lirik_list)
    /\ (forall b' n', (b', n') <> (b, n) ->
                      select_hymn d b' n' = select_hymn conn b' n')
    /\ (flag = true
        <-> exists blocks, lirik_list = Some blocks
                           /\ valid_blocks blocks = true)
    /\ (flag = false -> warnings r <> None).
Proof.
  intros Hu H.
  destruct (s GetNkb24.SOURCE_URL) as [e0|html] eqn:Hs.
  { revert H. run_scrape. rewrite Hs. discriminate. }
  destruct (find_article (BeautifulSoup html)) as [a|] eqn:Ha.
  2:{ revert H. run_scrape. rewrite Hs, Ha. discriminate. }
  destruct (main_usable BeautifulSoup s utcnow conn st html a Hs Ha)
    as (l & u & ws & st1 & _ & Hm).
  cbv zeta in Hm. rewrite Hm in H. clear Hm.
  set (m := metadata_of_article GetNkb24.split_title a) in *.
  set (r := GetNkb24.main_row _ _ _ _ _) in *.
  destruct (upsert_hymn conn r) as [d0|c] eqn:Hup; [|discriminate H].
  injection H as <- <- <-.
  assert (not_null_violation r = None) as Hv.
  { unfold upsert_hymn in Hup.
    destruct (not_null_violation r); [discriminate Hup|reflexivity]. }
  assert (d0 = after_upsert conn r) as -> by (unfold after_upsert; now rewrite Hup).
  pose proof Hv as Hh. apply main_row_violation in Hh.
  unfold heading_usable in Hh.
  destruct (meta_buku m) as [b|] eqn:Hb; [|discriminate Hh].
  destruct (meta_no_lagu m) as [n|] eqn:Hn; [|discriminate Hh].
  assert (buku r = Some b) as Hrb by exact Hb.
  assert (no_lagu r = Some n) as Hrn by exact Hn.
  exists b, n, r, l. repeat split.
  - now apply upsert_accepted.
  - exact Hrb.
  - exact Hrn.
  - intros b' n' Hne.
    pose proof (select_after_other_key conn r b' n') as Hk.
    apply Hk. intros x k Hx Hk'. rewrite Hrb in Hx. rewrite Hrn in Hk'.
    injection Hx as <-. injection Hk' as <-. congruence.
  - apply has_parts_valid.
  - apply has_parts_valid.
  - intros Hf Hw. apply join_warnings_none in Hw.
    apply app_eq_nil in Hw as [Hw _].
    apply validate_nil in Hw as (_ & _ & _ & _ & Hbl).
    apply has_parts_valid in Hbl. congruence.
Qed.

Lemma main_stores_the_song_witness :
  exists b n r lirik_list,
    select_hymn (after_upsert empty_db
                   (GetNkb24.main_row (noon []) comma_meta
                      (parse_alkitab_page site_soup lyrics_page)
                      (Some nkb24) [])) b n = [r]
    /\ buku r = Some b /\ no_lagu r = Some n
    /\ source_url r = Some GetNkb24.SOURCE_URL
    /\ lirik_json r = Some (dumps_lirik lirik_list)
    /\ (forall b' n', (b', n') <> (b, n) ->
                      select_hymn (after_upsert empty_db
                                     (GetNkb24.main_row (noon []) comma_meta
                                        (parse_alkitab_page site_soup lyrics_page)
                                        (Some nkb24) [])) b' n'
                      = select_hymn empty_db b' n')
    /\ (true = true
        <-> exists blocks, lirik_list = Some blocks
                           /\ valid_blocks blocks = true)
    /\ (true = false -> warnings r <> None).
Proof.
  apply (main_stores_the_song site_soup site noon empty_db fresh
           (after_upsert empty_db
              (GetNkb24.main_row (noon []) comma_meta
                 (parse_alkitab_page site_soup lyrics_page) (Some nkb24) []))
           true {| log := [GetNkb24.SOURCE_URL; nkb24]; warns := [] |}).
  - exact empty_db_unique.
  - vm_compute. reflexivity.
Defined.


(** ** Normal forms and lengths *)

Lemma normalize_str_normal (s : str) : normal_form (normalize_str s).
Proof.
  repeat split.
  - apply normalize_str_plain.
  - apply stripped_strip.
  - destruct (normalize_str_lines s) as (ls & E & Hn & Hs & Hf).
    rewrite E, split_join; assumption.
  - apply normalize_str_run.
Qed.

Lemma normal_form_fixed (t : str) : normal_form t -> normalize_str t = t.
Proof.
  intros (Hp & Hst & Hl & Hr). unfold normalize_str.
  rewrite replace_punct_fix, unify_newlines_fix by assumption.
  rewrite <- (join_split NL t) at 1.
  rewrite strip_lines_fix;
    [|apply split_not_nil|assumption|apply split_sep_free].
  rewrite join_split, sub_nl3_fix by assumption. exact Hst.
Qed.

(** Both normalisers map every text to a normal form, and the texts they
    leave unchanged are exactly the normal forms: no typographic quote,
    dash, no-break space or carriage return, no white space around the text
    or around a line, no more than two newlines in a row. *)
Theorem normalize_fixes_normal_forms :
  (forall s, exists t, normalize (Some s) = Some t
                       /\ normalize_preserve_newlines (Some s) = Some t
                       /\ normal_form t)
  /\ (forall t, normalize (Some t) = Some t <-> normal_form t)
  /\ (forall t, normalize_preserve_newlines (Some t) = Some t <-> normal_form t).
Proof.
  split; [|split].
  - intros s. exists (normalize_str s).
    split; [apply normalize_some|].
    split; [apply normalize_preserve_newlines_some|].
    apply normalize_str_normal.
  - intros t. rewrite normalize_some. split.
    + intros H. injection H as H. rewrite <- H. apply normalize_str_normal.
    + intros H. f_equal. now apply normal_form_fixed.
  - intros t. rewrite normalize_preserve_newlines_some. split.
    + intros H. injection H as H. rewrite <- H. apply normalize_str_normal.
    + intros H. f_equal. now apply normal_form_fixed.
Qed.

Lemma starts_with_length (p s : str) :
  starts_with p s = true -> (List.length p <= List.length s)%nat.
Proof.
  revert s. induction p as [|a p IH]; intros s H; simpl; [lia|].
  destruct s as [|b s]; [discriminate H|]. simpl in H.
  apply andb_prop in H as [_ H]. apply IH in H. simpl. lia.
Qed.

Lemma replace_from_length (old new : str) :
  (List.length new <= List.length old)%nat -> old <> [] ->
  forall s n, (n <= List.length s)%nat ->
    (List.length (replace_from old new n s) <= List.length s - n)%nat.
Proof.
  intros Hlen Hne s. induction s as [|c s IH]; intros n Hn; [simpl; lia|].
  cbn [replace_from]. destruct n as [|n].
  - destruct (starts_with old (c :: s)) eqn:E.
    + apply starts_with_length in E.
      destruct old as [|o old]; [congruence|].
      cbn [List.length pred] in E, Hlen |- *.
      rewrite length_app.
      assert (List.length old <= List.length s)%nat as Hp by lia.
      specialize (IH _ Hp). lia.
    + cbn [List.length]. specialize (IH O (Nat.le_0_l _)). lia.
  - cbn [List.length] in Hn |- *.
    assert (n <= List.length s)%nat as Hk by lia.
    specialize (IH _ Hk). lia.
Qed.

Lemma sub_nl3_from_length (s : str) :
  forall skip, (skip <= List.length s)%nat ->
    (List.length (sub_nl3_from skip s) <= List.length s - skip)%nat.
Proof.
  induction s as [|c s IH]; intros skip Hs; [simpl; lia|].
  cbn [sub_nl3_from]. destruct skip as [|k].
  - unfold match_nl3.
    pose proof (count_nl_le_length (c :: s)) as Hc.
    destruct (3 <=? count_nl (c :: s))%nat eqn:E.
    + apply Nat.leb_le in E. cbn [List.length] in Hc |- *.
      assert (pred (count_nl (c :: s)) <= List.length s)%nat as Hp by lia.
      specialize (IH _ Hp). lia.
    + cbn [List.length]. specialize (IH O (Nat.le_0_l _)). lia.
  - cbn [List.length] in Hs |- *.
    assert (k <= List.length s)%nat as Hk by lia.
    specialize (IH _ Hk). lia.
Qed.

Lemma strip_length (s : str) : (List.length (strip s) <= List.length s)%nat.
Proof.
  unfold strip. etransitivity; [apply rstrip_length|apply lstrip_length].
Qed.

Lemma join_strip_length (ls : list str) :
  (List.length (join [NL] (map strip ls)) <= List.length (join [NL] ls))%nat.
Proof.
  induction ls as [|l ls IH]; [simpl; lia|].
  destruct ls as [|l' ls]; [apply strip_length|].
  cbn [map].
  rewrite (join_cons [NL] (strip l) (strip l' :: map strip ls)) by discriminate.
  rewrite (join_cons [NL] l (l' :: ls)) by discriminate.
  rewrite !length_app. cbn [map] in IH.
  pose proof (strip_length l). lia.
Qed.

Lemma normalize_str_length (s : str) :
  (List.length (normalize_str s) <= List.length s)%nat.
Proof.
  unfold normalize_str.
  etransitivity; [apply strip_length|].
  etransitivity; [apply (sub_nl3_from_length _ O); lia|]. rewrite Nat.sub_0_r.
  unfold strip_lines.
  etransitivity; [apply join_strip_length|]. rewrite join_split.
  unfold unify_newlines. rewrite replace_single, length_map.
  etransitivity;
    [apply (replace_from_length [CR; NL] [NL]);
     [simpl; lia|discriminate|lia]|].
  rewrite Nat.sub_0_r, replace_punct_map, length_map. lia.
Qed.

(** Normalising never makes a text longer: every step replaces characters
    one for one or removes some. *)
Theorem normalize_never_lengthens (s : str) :
  exists t,
    normalize (Some s) = Some t
    /\ normalize_preserve_newlines (Some s) = Some t
    /\ (List.length t <= List.length s)%nat.
Proof.
  exists (normalize_str s).
  split; [apply normalize_some|].
  split; [apply normalize_preserve_newlines_some|].
  apply normalize_str_length.
Qed.


(** ** The JSON text *)

Lemma hex_digit_inj (a b : N) :
  a < 16 -> b < 16 -> Json.hex_digit a = Json.hex_digit b -> a = b.
Proof.
  unfold Json.hex_digit. intros Ha Hb.
  destruct (N.ltb_spec a 10), (N.ltb_spec b 10); lia.
Qed.

Lemma hex_digit_printable (a : N) : 32 <= Json.hex_digit a.
Proof. unfold Json.hex_digit. destruct (a <? 10); lia. Qed.

Lemma hex_pair_inj (a b : N) :
  a < 32 -> b < 32 ->
  Json.hex_digit (a / 16) = Json.hex_digit (b / 16) ->
  Json.hex_digit (a mod 16) = Json.hex_digit (b mod 16) ->
  a = b.
Proof.
  intros Ha Hb H1 H2.
  apply hex_digit_inj in H1; try (apply N.Div0.div_lt_upper_bound; lia).
  apply hex_digit_inj in H2; try (apply N.mod_lt; lia).
  rewrite (N.div_mod a 16), (N.div_mod b 16) by lia. now rewrite H1, H2.
Qed.

Ltac escape_cases c :=
  unfold Json.escape_char, Json.QUOTE, Json.BACKSLASH;
  change (lit "b") with [98]; change (lit "f") with [102];
  change (lit "n") with [110]; change (lit "r") with [114];
  change (lit "t") with [116]; change (lit "u00") with [117; 48; 48];
  destruct (N.eqb_spec c 34); [|
  destruct (N.eqb_spec c 92); [|
  destruct (N.eqb_spec c 8); [|
  destruct (N.eqb_spec c 12); [|
  destruct (N.eqb_spec c 10); [|
  destruct (N.eqb_spec c 13); [|
  destruct (N.eqb_spec c 9); [|
  destruct (N.ltb_spec c 32)]]]]]]].

(** No escape is the beginning of another: what follows a character's
    escape can be told apart from the escape itself. *)
Lemma escape_char_prefix_free (c1 c2 : char) (r1 r2 : str) :
  Json.escape_char c1 ++ r1 = Json.escape_char c2 ++ r2 ->
  c1 = c2 /\ r1 = r2.
Proof.
  escape_cases c1; escape_cases c2; cbn [app]; intros Heq;
    try (injection Heq; intros; subst; try lia; now split).
  injection Heq as H1 H2 H3. split; [|assumption].
  now apply hex_pair_inj.
Qed.

Lemma escape_char_not_nil (c : char) : Json.escape_char c <> [].
Proof. escape_cases c; discriminate. Qed.

Lemma escape_injective (s1 : str) :
  forall s2, flat_map Json.escape_char s1 = flat_map Json.escape_char s2 ->
             s1 = s2.
Proof.
  induction s1 as [|c1 s1 IH]; intros [|c2 s2] H; cbn [flat_map] in H.
  - reflexivity.
  - symmetry in H. apply app_eq_nil in H as [H _].
    now apply escape_char_not_nil in H.
  - apply app_eq_nil in H as [H _]. now apply escape_char_not_nil in H.
  - apply escape_char_prefix_free in H as [-> H]. f_equal. now apply IH.
Qed.

Lemma escape_char_printable (c : char) :
  Forall (fun x => 32 <= x) (Json.escape_char c).
Proof.
  escape_cases c; repeat constructor; try lia; apply hex_digit_printable.
Qed.

Lemma quote_printable (s : str) : Forall (fun x => 32 <= x) (Json.quote s).
Proof.
  unfold Json.quote, Json.QUOTE.
  constructor; [lia|]. apply Forall_app. split.
  - apply Forall_flat_map. apply Forall_forall. intros c _.
    apply escape_char_printable.
  - repeat constructor. lia.
Qed.

Lemma lit_printable_sep : Forall (fun x => 32 <= x) (lit ", ").
Proof. repeat constructor; cbv; discriminate. Qed.

Lemma of_option_printable (o : option str) :
  Forall (fun x => 32 <= x) (Json.dumps (Json.of_option o)).
Proof.
  destruct o as [s|]; cbn [Json.of_option Json.dumps];
    [apply quote_printable|repeat constructor; cbv; discriminate].
Qed.

Lemma part_json_printable (p : part) :
  Forall (fun x => 32 <= x) (Json.dumps (part_json p)).
Proof.
  unfold part_json. cbn [Json.dumps map fst snd join].
  repeat (apply Forall_app; split);
    try apply quote_printable; try apply of_option_printable;
    try (repeat constructor; cbv; discriminate).
Qed.

Lemma block_json_printable (b : block) :
  Forall (fun x => 32 <= x) (Json.dumps (block_json b)).
Proof.
  unfold block_json. cbn [Json.dumps map fst snd join].
  repeat (apply Forall_app; split);
    try apply quote_printable; try apply of_option_printable;
    try (repeat constructor; cbv; discriminate).
  apply join_Forall; [apply lit_printable_sep|].
  rewrite map_map. apply Forall_map, Forall_forall. intros p _.
  apply part_json_printable.
Qed.

(** The JSON text: two texts have the same JSON string only when they are
    the same text, and neither a JSON string nor the whole of [lirik_json]
    contains a control character, so that a newline in a lyric is stored as
    its escape and the column holds one line. *)
Theorem json_string_is_faithful (s1 s2 : str) (lirik_list : option (list block)) :
  (Json.quote s1 = Json.quote s2 <-> s1 = s2)
  /\ Forall (fun x => 32 <= x) (Json.quote s1)
  /\ Forall (fun x => 32 <= x) (dumps_lirik lirik_list).
Proof.
  split; [split|split].
  - intros H. unfold Json.quote in H. injection H as H.
    apply app_inv_tail in H. now apply escape_injective.
  - now intros ->.
  - apply quote_printable.
  - unfold dumps_lirik. cbn [Json.dumps].
    repeat (apply Forall_app; split);
      try (repeat constructor; cbv; discriminate).
    apply join_Forall; [apply lit_printable_sep|].
    rewrite map_map. apply Forall_map, Forall_forall. intros b _.
    apply block_json_printable.
Qed.


(** ** The three link files *)

Lemma process_file_spec BeautifulSoup s utcnow random_sample
      hymnal file testing w :
  exists ok err w' rows,
    Kjpkjnkb.process_file BeautifulSoup s utcnow random_sample
                          hymnal file testing w
    = (ok, err, w')
    /\ (ok + err = List.length (links_worked_on random_sample file testing))%nat
    /\ ok = List.length rows
    /\ w_db w' = fold_left after_upsert rows (w_db w)
    /\ (List.length (log (w_state w)) + (ok + err)
        <= List.length (log (w_state w'))
        <= List.length (log (w_state w)) + 3 * (ok + err))%nat.
Proof.
  unfold Kjpkjnkb.process_file, links_worked_on.
  destruct (read_links file) as [|l0 ls] eqn:E.
  - exists O, O, w, []. repeat split; simpl; lia.
  - set (links := if testing then _ else _).
    destruct (process_links_fold BeautifulSoup s utcnow hymnal links O O w)
      as (ok & err & w' & rows & -> & Hsum & Hok & Hdb & _ & Hreq).
    exists ok, err, w', rows. repeat split; try assumption; lia.
Qed.

Lemma fold_upserts_app (r1 r2 : list row) (d : db) :
  fold_left after_upsert (r1 ++ r2) d
  = fold_left after_upsert r2 (fold_left after_upsert r1 d).
Proof. apply fold_left_app. Qed.

(** [main] of kjpkjnkb counts every link of the three files once in its
    totals, makes at most three requests for each, and leaves a sound
    store: keys unique, ids distinct, the rows that were there with their
    ids and in their places. *)
Theorem main_counts_every_link BeautifulSoup s utcnow random_sample
        kj pkj nkb testing w :
  unique_keys (w_db w) -> ids_fresh (w_db w) ->
  exists ok err w',
    Kjpkjnkb.main BeautifulSoup s utcnow random_sample kj pkj nkb testing w
    = (ok, err, w')
    /\ (ok + err
        = List.length (links_worked_on random_sample kj testing)
          + List.length (links_worked_on random_sample pkj testing)
          + List.length (links_worked_on random_sample nkb testing))%nat
    /\ (List.length (log (w_state w')) - List.length (log (w_state w))
        <= 3 * (ok + err))%nat
    /\ unique_keys (w_db w')
    /\ ids_fresh (w_db w')
    /\ firstn (List.length (hymns (w_db w))) (map id (hymns (w_db w')))
       = map id (hymns (w_db w)).
Proof.
  intros Hu Hi. unfold Kjpkjnkb.main. cbn [fold_left fst snd].
  destruct (process_file_spec BeautifulSoup s utcnow random_sample
              (lit "KJ") kj testing w)
    as (ok1 & err1 & w1 & rows1 & -> & Hs1 & Hk1 & Hd1 & Hr1).
  destruct (process_file_spec BeautifulSoup s utcnow random_sample
              (lit "PKJ") pkj testing w1)
    as (ok2 & err2 & w2 & rows2 & -> & Hs2 & Hk2 & Hd2 & Hr2).
  destruct (process_file_spec BeautifulSoup s utcnow random_sample
              (lit "NKB") nkb testing w2)
    as (ok3 & err3 & w3 & rows3 & -> & Hs3 & Hk3 & Hd3 & Hr3).
  do 3 eexists. split; [reflexivity|].
  assert (w_db w3 = fold_left after_upsert (rows1 ++ rows2 ++ rows3) (w_db w))
    as Hd by (now rewrite !fold_upserts_app, <- Hd1, <- Hd2).
  rewrite Hd.
  destruct (upserts_keep_ids (rows1 ++ rows2 ++ rows3) (w_db w) Hi) as [H1 H2].
  repeat split; try apply H1; try exact H2; try lia.
  now apply upserts_keep_unique.
Qed.

Lemma main_counts_every_link_witness :
  exists ok err w',
    Kjpkjnkb.main site_soup site noon (fun l k => firstn k l)
                  None None
                  (Some (join [NL] [dash_url; GetNkb24.SOURCE_URL]))
                  false start
    = (ok, err, w')
    /\ (ok + err
        = List.length (links_worked_on (fun l k => firstn k l) None false)
          + List.length (links_worked_on (fun l k => firstn k l) None false)
          + List.length (links_worked_on (fun l k => firstn k l)
                           (Some (join [NL] [dash_url; GetNkb24.SOURCE_URL]))
                           false))%nat
    /\ (List.length (log (w_state w')) - List.length (log (w_state start))
        <= 3 * (ok + err))%nat
    /\ unique_keys (w_db w')
    /\ ids_fresh (w_db w')
    /\ firstn (List.length (hymns (w_db start))) (map id (hymns (w_db w')))
       = map id (hymns (w_db start)).
Proof.
  apply (main_counts_every_link site_soup site noon (fun l k => firstn k l)
           None None (Some (join [NL] [dash_url; GetNkb24.SOURCE_URL]))
           false start).
  - exact empty_db_unique.
  - exact empty_db_ids_fresh.
Defined.
